(** * The timeline store of the clip-based video editor

    A shallow embedding of [stores/timeline-store] (the zustand store holding
    tracks, clips, playhead and viewport) and of [getActiveClip] from the
    preview panel, followed by the properties of the timeline model.

    Numbers.  The store computes on JavaScript numbers.  They are modelled as
    exact rationals [Q]: [Math.max] and [Math.min] are [Qmax] and [Qmin],
    the literal 0.1 is [1#10].  NaN, the infinities and rounding are outside
    the model; equations between computed numbers are stated with [==].
    Bounds are stated on the expressions the code itself evaluates (a sum
    the code compares, a difference it stores), so that they read the same
    on binary64 numbers.  Where rounding decides what may be said, the
    computation is repeated on binary64 in the module [Binary64].

    Identifiers.  [crypto.randomUUID()] is an input of the operation that
    calls it: the embedding takes the drawn identifier as an argument.

    Names.  The fields [id] and [name] of clips and tracks are [clip_id],
    [clip_name], [track_id] and [track_name]; [type] is [track_type]. *)

From Stdlib Require Import String Ascii List Bool ZArith QArith Qminmax Lqa Lia.
From Stdlib Require Import Qabs Qround Permutation.
From Stdlib Require Import PrimFloat.
Import ListNotations.
Set Warnings "-inexact-float".
Local Open Scope Q_scope.

(** ** JavaScript helpers used by the store *)

(** [a ?? d] *)
Definition nullish {A : Type} (o : option A) (d : A) : A :=
  match o with
  | Some x => x
  | None => d
  end.

Notation "o ?? d" := (nullish o d) (at level 45, left associativity).

(** [Array.prototype.findIndex]: the first index whose element satisfies the
    predicate, [-1] when there is none. *)
Fixpoint findIndex {A : Type} (p : A -> bool) (l : list A) : Z :=
  match l with
  | [] => (-1)%Z
  | x :: r =>
      if p x then 0%Z
      else let i := findIndex p r in
           if (i =? -1)%Z then (-1)%Z else (i + 1)%Z
  end.

(** The clamped start position [Array.prototype.splice] works from: a
    negative [start] counts from the end, and the result stays within
    [0 .. length]. *)
Definition splice_start {A : Type} (l : list A) (start : Z) : nat :=
  let len := Z.of_nat (length l) in
  Z.to_nat (if (start <? 0)%Z then Z.max (len + start) 0 else Z.min start len).

(** [l.splice(start, deleteCount, ...items)]: the array after the call and
    the removed elements it returns. *)
Definition splice {A : Type} (l : list A) (start deleteCount : Z)
    (items : list A) : list A * list A :=
  let s := splice_start l start in
  let d := Z.to_nat (Z.min (Z.max deleteCount 0)
                           (Z.of_nat (length l) - Z.of_nat s)) in
  (firstn s l ++ items ++ skipn (s + d) l, firstn d (skipn s l)).

(** [c.toUpperCase()] on one ASCII character. *)
Definition toUpperCase (c : ascii) : ascii :=
  let n := nat_of_ascii c in
  if andb (97 <=? n)%nat (n <=? 122)%nat then ascii_of_nat (n - 32) else c.

(** ** Data model *)

Record TimelineClip : Type := mkClip {
  clip_id : string;
  mediaId : string;
  clip_name : string;
  duration : Q;
  trimStart : option Q;
  trimEnd : option Q;
  originalDuration : Q;
  startTime : Q
}.

(** [Omit<TimelineClip, "id">], the argument of [addClipToTrack]. *)
Record ClipData : Type := mkClipData {
  data_mediaId : string;
  data_name : string;
  data_duration : Q;
  data_trimStart : option Q;
  data_trimEnd : option Q;
  data_originalDuration : Q;
  data_startTime : Q
}.

Inductive TrackType : Type := video | audio | effects.

Definition TrackType_string (ty : TrackType) : string :=
  match ty with
  | video => "video"
  | audio => "audio"
  | effects => "effects"
  end.

Record TimelineTrack : Type := mkTrack {
  track_id : string;
  track_name : string;
  track_type : TrackType;
  clips : list TimelineClip
}.

Record TimelineStore : Type := mkStore {
  tracks : list TimelineTrack;
  playheadPosition : Q;
  isPlaying : bool;
  totalDuration : Q;
  zoomLevel : Q;
  scrollPosition : Q;
  viewportDuration : Q
}.

(** The media registry, as far as the preview panel reads it. *)
Inductive MediaType : Type := media_video | media_audio | media_image.

Record MediaItem : Type := mkMedia {
  media_id : string;
  media_type : MediaType;
  media_url : string;
  media_duration : Q;
  media_name : string
}.

(** Partial updates, as [set({ field: value })] merges them. *)
Definition set_tracks (ts : list TimelineTrack) (s : TimelineStore) :=
  mkStore ts (playheadPosition s) (isPlaying s) (totalDuration s)
          (zoomLevel s) (scrollPosition s) (viewportDuration s).

Definition set_playheadPosition (p : Q) (s : TimelineStore) :=
  mkStore (tracks s) p (isPlaying s) (totalDuration s)
          (zoomLevel s) (scrollPosition s) (viewportDuration s).

Definition set_isPlaying (b : bool) (s : TimelineStore) :=
  mkStore (tracks s) (playheadPosition s) b (totalDuration s)
          (zoomLevel s) (scrollPosition s) (viewportDuration s).

Definition set_totalDuration (d : Q) (s : TimelineStore) :=
  mkStore (tracks s) (playheadPosition s) (isPlaying s) d
          (zoomLevel s) (scrollPosition s) (viewportDuration s).

Definition set_zoomLevel (z : Q) (s : TimelineStore) :=
  mkStore (tracks s) (playheadPosition s) (isPlaying s) (totalDuration s)
          z (scrollPosition s) (viewportDuration s).

Definition set_scrollPosition (p : Q) (s : TimelineStore) :=
  mkStore (tracks s) (playheadPosition s) (isPlaying s) (totalDuration s)
          (zoomLevel s) p (viewportDuration s).

Definition set_viewportDuration (d : Q) (s : TimelineStore) :=
  mkStore (tracks s) (playheadPosition s) (isPlaying s) (totalDuration s)
          (zoomLevel s) (scrollPosition s) d.

Definition with_clips (t : TimelineTrack) (cs : list TimelineClip) :=
  mkTrack (track_id t) (track_name t) (track_type t) cs.

(** ** The store *)

Definition initialState : TimelineStore :=
  mkStore [] 0 false 0 1 0 60.

(** [clip.startTime + clip.duration] *)
Definition clipEnd (c : TimelineClip) : Q := startTime c + duration c.

(** [clips.reduce((m, clip) => Math.max(m, clip.startTime + clip.duration), 0)] *)
Definition trackDuration (cs : list TimelineClip) : Q :=
  fold_left (fun trackMax clip => Qmax trackMax (clipEnd clip)) cs 0.

Definition maxDuration (ts : list TimelineTrack) : Q :=
  fold_left (fun max track => Qmax max (trackDuration (clips track))) ts 0.

Definition updateTotalDuration (s : TimelineStore) : TimelineStore :=
  set_totalDuration (Qmax (maxDuration (tracks s)) 300) s.

Definition newTrackName (ty : TrackType) : string :=
  match TrackType_string ty with
  | String c rest => String (toUpperCase c) rest ++ " Track"
  | EmptyString => " Track"
  end%string.

(** [addTrack(type)]; [uuid] is the identifier drawn for the track. *)
Definition addTrack (ty : TrackType) (uuid : string) (s : TimelineStore)
  : string * TimelineStore :=
  let newTrack := mkTrack uuid (newTrackName ty) ty [] in
  (track_id newTrack, set_tracks (tracks s ++ [newTrack]) s).

Definition removeTrack (trackId : string) (s : TimelineStore) : TimelineStore :=
  set_tracks (filter (fun track => negb (track_id track =? trackId)%string)
                     (tracks s)) s.

(** The [startTime] that [addClipToTrack] computes: the end of the last clip
    of the track found, 0 when no track has the id. *)
Definition newClipStart (trackId : string) (s : TimelineStore) : Q :=
  let track := find (fun t => (track_id t =? trackId)%string) (tracks s) in
  match track with
  | Some t => trackDuration (clips t)
  | None => 0
  end.

(** [{ ...clipData, id, originalDuration: clipData.duration, trimStart: 0,
      trimEnd: clipData.duration, startTime }] *)
Definition newClip (clipData : ClipData) (uuid : string) (start : Q)
  : TimelineClip :=
  mkClip uuid (data_mediaId clipData) (data_name clipData)
         (data_duration clipData) (Some 0) (Some (data_duration clipData))
         (data_duration clipData) start.

Definition addClipToTrack (trackId : string) (clipData : ClipData)
    (uuid : string) (s : TimelineStore) : TimelineStore :=
  let start := newClipStart trackId s in
  let newClip := newClip clipData uuid start in
  updateTotalDuration
    (set_tracks
       (map (fun track =>
               if (track_id track =? trackId)%string
               then with_clips track (clips track ++ [newClip])
               else track)
            (tracks s)) s).

Definition removeClipFromTrack (trackId clipId : string) (s : TimelineStore)
  : TimelineStore :=
  updateTotalDuration
    (set_tracks
       (map (fun track =>
               if (track_id track =? trackId)%string
               then with_clips track
                      (filter (fun clip => negb (clip_id clip =? clipId)%string)
                              (clips track))
               else track)
            (tracks s)) s).

(** [fromTrack?.clips.find(clip => clip.id === clipId)] *)
Definition findClip (fromTrackId clipId : string) (s : TimelineStore)
  : option TimelineClip :=
  match find (fun track => (track_id track =? fromTrackId)%string) (tracks s) with
  | Some fromTrack =>
      find (fun clip => (clip_id clip =? clipId)%string) (clips fromTrack)
  | None => None
  end.

Definition moveClipToTrack (fromTrackId toTrackId clipId : string)
    (insertIndex : option Z) (s : TimelineStore) : TimelineStore :=
  updateTotalDuration
    (match findClip fromTrackId clipId s with
     | None => s
     | Some clipToMove =>
         set_tracks
           (map (fun track =>
                   if (track_id track =? fromTrackId)%string then
                     with_clips track
                       (filter (fun clip => negb (clip_id clip =? clipId)%string)
                               (clips track))
                   else if (track_id track =? toTrackId)%string then
                     let newClips := clips track in
                     let index :=
                       match insertIndex with
                       | Some i => i
                       | None => Z.of_nat (length newClips)
                       end in
                     with_clips track (fst (splice newClips index 0 [clipToMove]))
                   else track)
                (tracks s)) s
     end).

Definition reorderClipInTrack (trackId clipId : string) (newIndex : Z)
    (s : TimelineStore) : TimelineStore :=
  updateTotalDuration
    (set_tracks
       (map (fun track =>
               if negb (track_id track =? trackId)%string then track
               else
                 let clipIndex :=
                   findIndex (fun clip => (clip_id clip =? clipId)%string)
                             (clips track) in
                 if (clipIndex =? -1)%Z then track
                 else
                   let '(newClips, removed) := splice (clips track) clipIndex 1 [] in
                   match removed with
                   | movedClip :: _ =>
                       with_clips track (fst (splice newClips newIndex 0 [movedClip]))
                   | [] => track (* not reached: clipIndex is a valid index *)
                   end)
            (tracks s)) s).

(** The body of the inner [map] of [trimClip], for the clip that matches. *)
Definition trimmed (clip : TimelineClip) (trimStart' trimEnd' : option Q)
  : TimelineClip :=
  let currentTrimStart := trimStart clip ?? 0 in
  let currentTrimEnd := trimEnd clip ?? originalDuration clip in
  let newTrimStart := trimStart' ?? currentTrimStart in
  let newTrimEnd := trimEnd' ?? currentTrimEnd in
  let validTrimStart := Qmax 0 (Qmin newTrimStart (originalDuration clip)) in
  let validTrimEnd :=
    Qmax (validTrimStart + (1#10)) (Qmin newTrimEnd (originalDuration clip)) in
  let newDuration := validTrimEnd - validTrimStart in
  let newStartTime :=
    match trimStart' with
    | Some _ =>
        let trimDelta := validTrimStart - currentTrimStart in
        startTime clip + trimDelta
    | None => startTime clip
    end in
  mkClip (clip_id clip) (mediaId clip) (clip_name clip) newDuration
         (Some validTrimStart) (Some validTrimEnd) (originalDuration clip)
         newStartTime.

Definition trimClip (trackId clipId : string) (trimStart' trimEnd' : option Q)
    (s : TimelineStore) : TimelineStore :=
  updateTotalDuration
    (set_tracks
       (map (fun track =>
               if negb (track_id track =? trackId)%string then track
               else
                 with_clips track
                   (map (fun clip =>
                           if negb (clip_id clip =? clipId)%string then clip
                           else trimmed clip trimStart' trimEnd')
                        (clips track)))
            (tracks s)) s).

(** The two clips [splitClip] creates from [originalClip]; [uuid1] and
    [uuid2] are the identifiers drawn for them. *)
Definition splitFirst (originalClip : TimelineClip) (splitTime : Q)
    (uuid1 : string) : TimelineClip :=
  let actualSplitTime := (trimStart originalClip ?? 0) + splitTime in
  mkClip uuid1 (mediaId originalClip) (clip_name originalClip ++ " (1)")
         (actualSplitTime - (trimStart originalClip ?? 0))
         (trimStart originalClip) (Some actualSplitTime)
         (originalDuration originalClip) (startTime originalClip).

Definition splitSecond (originalClip : TimelineClip) (splitTime : Q)
    (uuid1 uuid2 : string) : TimelineClip :=
  let actualSplitTime := (trimStart originalClip ?? 0) + splitTime in
  let firstClip := splitFirst originalClip splitTime uuid1 in
  mkClip uuid2 (mediaId originalClip) (clip_name originalClip ++ " (2)")
         ((trimEnd originalClip ?? originalDuration originalClip) - actualSplitTime)
         (Some actualSplitTime) (trimEnd originalClip)
         (originalDuration originalClip)
         (startTime originalClip + duration firstClip).

Definition splitClip (trackId clipId : string) (splitTime : Q)
    (uuid1 uuid2 : string) (s : TimelineStore) : TimelineStore :=
  updateTotalDuration
    (set_tracks
       (map (fun track =>
               if negb (track_id track =? trackId)%string then track
               else
                 let clipIndex :=
                   findIndex (fun clip => (clip_id clip =? clipId)%string)
                             (clips track) in
                 if (clipIndex =? -1)%Z then track
                 else
                   match nth_error (clips track) (Z.to_nat clipIndex) with
                   | Some originalClip =>
                       let firstClip := splitFirst originalClip splitTime uuid1 in
                       let secondClip :=
                         splitSecond originalClip splitTime uuid1 uuid2 in
                       with_clips track
                         (fst (splice (clips track) clipIndex 1
                                      [firstClip; secondClip]))
                   | None => track (* not reached: clipIndex is a valid index *)
                   end)
            (tracks s)) s).

Definition setPlayheadPosition (position : Q) (s : TimelineStore)
  : TimelineStore :=
  let newPosition := Qmax 0 position in
  if Qlt_le_dec (totalDuration s - 30) newPosition then
    let extendedDuration := Qmax (totalDuration s + 60) (newPosition + 60) in
    set_totalDuration extendedDuration (set_playheadPosition newPosition s)
  else set_playheadPosition newPosition s.

Definition setIsPlaying (playing : bool) (s : TimelineStore) : TimelineStore :=
  set_isPlaying playing s.

(** [{ ...clipToMove, startTime: newStartTime }] *)
Definition updatedClip (clipToMove : TimelineClip) (newStartTime : Q)
  : TimelineClip :=
  mkClip (clip_id clipToMove) (mediaId clipToMove) (clip_name clipToMove)
         (duration clipToMove) (trimStart clipToMove) (trimEnd clipToMove)
         (originalDuration clipToMove) newStartTime.

Definition updateClipStartTime (fromTrackId toTrackId clipId : string)
    (newStartTime : Q) (s : TimelineStore) : TimelineStore :=
  updateTotalDuration
    (match findClip fromTrackId clipId s with
     | None => s
     | Some clipToMove =>
         let updatedClip := updatedClip clipToMove newStartTime in
         set_tracks
           (map (fun track =>
                   if andb (track_id track =? fromTrackId)%string
                           (fromTrackId =? toTrackId)%string then
                     with_clips track
                       (map (fun clip =>
                               if (clip_id clip =? clipId)%string
                               then updatedClip else clip)
                            (clips track))
                   else if (track_id track =? fromTrackId)%string then
                     with_clips track
                       (filter (fun clip => negb (clip_id clip =? clipId)%string)
                               (clips track))
                   else if (track_id track =? toTrackId)%string then
                     with_clips track (clips track ++ [updatedClip])
                   else track)
                (tracks s)) s
     end).

Definition setZoomLevel (level : Q) (s : TimelineStore) : TimelineStore :=
  let clampedLevel := Qmax (1#10) (Qmin level 10) in
  let baseViewportDuration := 60 in
  let newViewportDuration := baseViewportDuration / clampedLevel in
  set_scrollPosition 0
    (set_viewportDuration newViewportDuration (set_zoomLevel clampedLevel s)).

Definition setScrollPosition (position : Q) (s : TimelineStore) : TimelineStore :=
  let maxScroll := Qmax 0 (totalDuration s - viewportDuration s) in
  let clampedPosition := Qmax 0 (Qmin position maxScroll) in
  set_scrollPosition clampedPosition s.

Definition setViewportDuration (d : Q) (s : TimelineStore) : TimelineStore :=
  set_viewportDuration (Qmax 1 d) s.

Definition zoomIn (s : TimelineStore) : TimelineStore :=
  setZoomLevel (Qmin (zoomLevel s * (3#2)) 10) s.

Definition zoomOut (s : TimelineStore) : TimelineStore :=
  setZoomLevel (Qmax (zoomLevel s / (3#2)) (1#10)) s.

Definition resetZoom (s : TimelineStore) : TimelineStore :=
  set_scrollPosition 0 (setZoomLevel 1 s).

(** ** Active clip at the playhead (preview panel) *)

(** [playheadPosition >= clipStart && playheadPosition < clipEnd] *)
Definition atPlayhead (playheadPosition : Q) (clip : TimelineClip) : bool :=
  let clipStart := startTime clip in
  let clipEnd := startTime clip + duration clip in
  andb (Qle_bool clipStart playheadPosition)
       (negb (Qle_bool clipEnd playheadPosition)).

(** [mediaItems.find(item => item.id === clip.mediaId)] *)
Definition findMedia (mediaItems : list MediaItem) (clip : TimelineClip)
  : option MediaItem :=
  find (fun item => (media_id item =? mediaId clip)%string) mediaItems.

(** The inner loop of [getActiveClip] over the clips of one track. *)
Fixpoint activeInClips (mediaItems : list MediaItem) (playheadPosition : Q)
    (cs : list TimelineClip) : option (TimelineClip * MediaItem) :=
  match cs with
  | [] => None
  | clip :: rest =>
      if atPlayhead playheadPosition clip then
        match findMedia mediaItems clip with
        | Some mediaItem => Some (clip, mediaItem)
        | None => activeInClips mediaItems playheadPosition rest
        end
      else activeInClips mediaItems playheadPosition rest
  end.

(** [getActiveClip]: the outer loop over the tracks; [None] is [null]. *)
Fixpoint getActiveClip (mediaItems : list MediaItem) (playheadPosition : Q)
    (ts : list TimelineTrack) : option (TimelineClip * MediaItem) :=
  match ts with
  | [] => None
  | track :: rest =>
      match activeInClips mediaItems playheadPosition (clips track) with
      | Some found => Some found
      | None => getActiveClip mediaItems playheadPosition rest
      end
  end.

(** ** Runs of the store *)

(** One call of a store action with its arguments (and, for the actions that
    draw identifiers, the identifiers drawn). *)
Inductive Action : Type :=
| AddTrack (ty : TrackType) (uuid : string)
| RemoveTrack (trackId : string)
| AddClipToTrack (trackId : string) (clipData : ClipData) (uuid : string)
| RemoveClipFromTrack (trackId clipId : string)
| MoveClipToTrack (fromTrackId toTrackId clipId : string) (insertIndex : option Z)
| ReorderClipInTrack (trackId clipId : string) (newIndex : Z)
| TrimClip (trackId clipId : string) (trimStart' trimEnd' : option Q)
| SplitClip (trackId clipId : string) (splitTime : Q) (uuid1 uuid2 : string)
| SetPlayheadPosition (position : Q)
| SetIsPlaying (playing : bool)
| UpdateTotalDuration
| UpdateClipStartTime (fromTrackId toTrackId clipId : string) (newStartTime : Q)
| SetZoomLevel (level : Q)
| SetScrollPosition (position : Q)
| SetViewportDuration (d : Q)
| ZoomIn
| ZoomOut
| ResetZoom.

Definition perform (a : Action) (s : TimelineStore) : TimelineStore :=
  match a with
  | AddTrack ty uuid => snd (addTrack ty uuid s)
  | RemoveTrack trackId => removeTrack trackId s
  | AddClipToTrack trackId clipData uuid => addClipToTrack trackId clipData uuid s
  | RemoveClipFromTrack trackId clipId => removeClipFromTrack trackId clipId s
  | MoveClipToTrack f t c i => moveClipToTrack f t c i s
  | ReorderClipInTrack t c i => reorderClipInTrack t c i s
  | TrimClip t c a b => trimClip t c a b s
  | SplitClip t c x u1 u2 => splitClip t c x u1 u2 s
  | SetPlayheadPosition p => setPlayheadPosition p s
  | SetIsPlaying b => setIsPlaying b s
  | UpdateTotalDuration => updateTotalDuration s
  | UpdateClipStartTime f t c x => updateClipStartTime f t c x s
  | SetZoomLevel l => setZoomLevel l s
  | SetScrollPosition p => setScrollPosition p s
  | SetViewportDuration d => setViewportDuration d s
  | ZoomIn => zoomIn s
  | ZoomOut => zoomOut s
  | ResetZoom => resetZoom s
  end.

(** The actions whose last step is [get().updateTotalDuration()]. *)
Definition recomputes (a : Action) : bool :=
  match a with
  | AddClipToTrack _ _ _ | RemoveClipFromTrack _ _ | MoveClipToTrack _ _ _ _
  | ReorderClipInTrack _ _ _ | TrimClip _ _ _ _ | SplitClip _ _ _ _ _
  | UpdateTotalDuration | UpdateClipStartTime _ _ _ _ => true
  | _ => false
  end.

(** The store after a sequence of calls, from a given state. *)
Definition run (actions : list Action) (s : TimelineStore) : TimelineStore :=
  fold_left (fun st a => perform a st) actions s.

(** All clips of the state, in scan order, and the clips of one track id. *)
Definition allClips (s : TimelineStore) : list TimelineClip :=
  flat_map clips (tracks s).

(** ** The timeline component: pointer, wheel and drop handlers

    The handlers of the timeline component and of the clip component, as
    functions of the values the browser hands them (pointer offsets, the
    width of the container found in the document, or [None] when the query
    finds none) and of the props captured when the gesture started.  A
    container of width 0 divides by zero and is outside the rational model:
    the properties below take the width positive. *)

(** [x || d] on numbers: [d] when [x] is 0. *)
Definition orElse (x d : Q) : Q := if Qeq_bool x 0 then d else x.

(** [x || d] on an optional number: [d] when [x] is undefined or 0. *)
Definition orElseOpt (o : option Q) (d : Q) : Q :=
  match o with
  | Some x => orElse x d
  | None => d
  end.

Inductive HandlePosition : Type := handleStart | handleEnd.

(** [ClipTrimHandle]: the arguments [handleMouseMove] passes to [onTrim]
    for a pointer that moved by [deltaX] pixels since the press; [clip] is
    the clip as it was when the handle was pressed. *)
Definition trimHandleArgs (position : HandlePosition) (clip : TimelineClip)
    (viewportDuration containerWidth deltaX : Q) : option Q * option Q :=
  let originalTrimStart := orElseOpt (trimStart clip) 0 in
  let originalTrimEnd := orElseOpt (trimEnd clip) (originalDuration clip) in
  let pixelToTime := viewportDuration / containerWidth in
  let timeDelta := deltaX * pixelToTime in
  match position with
  | handleStart =>
      let currentTrimEnd := orElse originalTrimEnd (originalDuration clip) in
      let maxTrimStart := currentTrimEnd - (1#10) in
      let newTrimStart :=
        Qmax 0 (Qmin (originalTrimStart + timeDelta) maxTrimStart) in
      (Some newTrimStart, Some originalTrimEnd)
  | handleEnd =>
      let currentTrimStart := orElse originalTrimStart 0 in
      let minTrimEnd := currentTrimStart + (1#10) in
      let newTrimEnd :=
        Qmax minTrimEnd
             (Qmin (originalTrimEnd + timeDelta) (originalDuration clip)) in
      (Some originalTrimStart, Some newTrimEnd)
  end.

(** One [mousemove] of a trim handle drag; [onTrim] is the store's
    [trimClip]. *)
Definition trimHandleMove (position : HandlePosition) (clip : TimelineClip)
    (trackId : string) (viewportDuration : Q) (container : option Q)
    (deltaX : Q) (s : TimelineStore) : TimelineStore :=
  match container with
  | None => s
  | Some containerWidth =>
      let '(a, b) :=
        trimHandleArgs position clip viewportDuration containerWidth deltaX in
      trimClip trackId (clip_id clip) a b s
  end.

(** [TimelineClipComponent]: the start time [handleMouseMove] computes for
    a clip body drag; [clip] and [totalDuration] are the props captured at
    the press. *)
Definition clipDragStartTime (clip : TimelineClip)
    (totalDuration viewportDuration containerWidth deltaX : Q) : Q :=
  let initialStartTime := startTime clip in
  let pixelToTime := viewportDuration / containerWidth in
  let timeDelta := deltaX * pixelToTime in
  Qmax 0 (Qmin (initialStartTime + timeDelta) (totalDuration - duration clip)).

Definition clipDragMove (clip : TimelineClip) (track : TimelineTrack)
    (totalDuration viewportDuration : Q) (container : option Q) (deltaX : Q)
    (s : TimelineStore) : TimelineStore :=
  match container with
  | None => s
  | Some containerWidth =>
      updateClipStartTime (track_id track) (track_id track) (clip_id clip)
        (clipDragStartTime clip totalDuration viewportDuration containerWidth
                           deltaX) s
  end.



(** [handlePlayheadMouseDown], one [mousemove]: [offset] is
    [e.clientX - rect.left], [width] is [rect.width]; [scrollPosition] and
    [viewportDuration] are the values the callback closed over. *)
Definition playheadDragTime (scrollPosition viewportDuration offset width : Q)
  : Q :=
  let x := Qmax 0 (Qmin offset width) in
  let timeInViewport := (x / width) * viewportDuration in
  Qmax 0 (scrollPosition + timeInViewport).

Definition playheadDragMove (scrollPosition viewportDuration : Q)
    (container : option (Q * Q)) (s : TimelineStore) : TimelineStore :=
  match container with
  | None => s
  | Some (offset, width) =>
      setPlayheadPosition
        (playheadDragTime scrollPosition viewportDuration offset width) s
  end.

(** [handleTimelineClick]: a click [x] pixels from the left of the ruler. *)
Definition timelineClickTime (scrollPosition viewportDuration x width : Q) : Q :=
  let timeInViewport := (x / width) * viewportDuration in
  scrollPosition + timeInViewport.

Definition handleTimelineClick (isDraggingPlayhead : bool)
    (scrollPosition viewportDuration x width : Q) (s : TimelineStore)
  : TimelineStore :=
  if isDraggingPlayhead then s
  else setPlayheadPosition
         (timelineClickTime scrollPosition viewportDuration x width) s.

(** The [left] offset, in percent, at which the ruler draws the playhead;
    [None] when it is not drawn. *)
Definition playheadLeftPercent (playheadPosition scrollPosition viewportDuration : Q)
  : option Q :=
  if andb (Qle_bool scrollPosition playheadPosition)
          (Qle_bool playheadPosition (scrollPosition + viewportDuration))
  then Some (((playheadPosition - scrollPosition) / viewportDuration) * 100)
  else None.

(** [TimelineClipComponent]: where a clip is drawn, as ([left], [width]) in
    percent of the container; [None] when the clip is outside the viewport. *)
Definition actualDuration (clip : TimelineClip) : Q :=
  (trimEnd clip ?? originalDuration clip) - (trimStart clip ?? 0).

Definition clipGeometry (clip : TimelineClip)
    (scrollPosition viewportDuration : Q) : option (Q * Q) :=
  let clipStart := startTime clip in
  let clipEnd := startTime clip + actualDuration clip in
  let viewportStart := scrollPosition in
  let viewportEnd := scrollPosition + viewportDuration in
  if orb (negb (Qle_bool viewportStart clipEnd))
         (negb (Qle_bool clipStart viewportEnd))
  then None
  else
    let clipLeftPercent := ((clipStart - scrollPosition) / viewportDuration) * 100 in
    let clipWidthPercent := (actualDuration clip / viewportDuration) * 100 in
    Some (clipLeftPercent, clipWidthPercent).


(** The track type [handleDrop] picks for a media item. *)
Definition trackTypeOf (ty : MediaType) : TrackType :=
  match ty with
  | media_video => video
  | media_audio => audio
  | media_image => video
  end.

(** [handleDrop] for a media item dragged from the media panel: [id] and
    [ty] are the id and the type in the drag data; when the registry holds
    the item, a new track is added and the item becomes its first clip.
    [trackUuid] and [clipUuid] are the identifiers drawn by [addTrack] and
    [addClipToTrack]. *)
Definition dropMediaItem (ty : MediaType) (mediaItem : MediaItem)
    (trackUuid clipUuid : string) (s : TimelineStore) : TimelineStore :=
  let trackType := trackTypeOf ty in
  let '(newTrackId, s1) := addTrack trackType trackUuid s in
  addClipToTrack newTrackId
    (mkClipData (media_id mediaItem) (media_name mediaItem)
                (orElse (media_duration mediaItem) 5) None None
                (orElse (media_duration mediaItem) 5) 0)
    clipUuid s1.

Definition handleDropMedia (id : string) (ty : MediaType)
    (mediaItems : list MediaItem) (trackUuid clipUuid : string)
    (s : TimelineStore) : TimelineStore :=
  match find (fun item => (media_id item =? id)%string) mediaItems with
  | None => s
  | Some mediaItem => dropMediaItem ty mediaItem trackUuid clipUuid s
  end.





(** ** The preview panel: playback *)

(** The callback of the playback interval: one tick of 100 ms. *)
Definition playbackTick (s : TimelineStore) : TimelineStore :=
  let newPosition := playheadPosition s + (1#10) in
  setPlayheadPosition newPosition s.

Fixpoint playbackTicks (n : nat) (s : TimelineStore) : TimelineStore :=
  match n with
  | O => s
  | S k => playbackTicks k (playbackTick s)
  end.

(** The time in the source media the preview seeks the video to; [None]
    when there is no active clip or the playhead is outside it. *)
Definition sourceTime (playheadPosition : Q)
    (active : option (TimelineClip * MediaItem)) : option Q :=
  match active with
  | None => None
  | Some (activeClip, _) =>
      let clipStartTime := startTime activeClip in
      let clipEndTime := startTime activeClip + duration activeClip in
      if andb (Qle_bool clipStartTime playheadPosition)
              (negb (Qle_bool clipEndTime playheadPosition))
      then
        let relativeTime := playheadPosition - clipStartTime in
        Some ((trimStart activeClip ?? 0) + relativeTime)
      else None
  end.

(** [Math.trunc], the rounding of the quotient in [a % b]. *)
Definition truncate (x : Q) : Z :=
  if Qle_bool 0 x then Qfloor x else Qceiling x.

(** [a % b] on numbers: the remainder has the sign of [a]. *)
Definition remainder (a b : Q) : Q := a - b * inject_Z (truncate (a / b)).

(** [formatTime] of the preview panel: the two numbers it prints, as
    [minutes:seconds] with the seconds padded to two digits. *)
Definition formatTime_minutes (time : Q) : Z := Qfloor (time / 60).

Definition formatTime_seconds (time : Q) : Z := Qfloor (remainder time 60).

(** ** Rounding

    The body of [trimClip] once more, on the binary64 numbers the program
    computes with, for the places where rounding decides what a bound on
    the trimmed length may say.  [Math.max] and [Math.min] give NaN when an
    argument is NaN and order [-0] before [+0]. *)
Module Binary64.
Import PrimFloat.
Local Open Scope float_scope.

Definition Math_max (a b : float) : float :=
  if orb (is_nan a) (is_nan b) then nan
  else if a <? b then b
  else if b <? a then a
  else if a =? 0 then a + b
  else a.

Definition Math_min (a b : float) : float := - Math_max (- a) (- b).

(** The numeric fields of a [TimelineClip]. *)
Record Clip : Type := mkClip {
  duration : float;
  trimStart : option float;
  trimEnd : option float;
  originalDuration : float;
  startTime : float
}.

Definition trimmed (clip : Clip) (trimStart' trimEnd' : option float) : Clip :=
  let currentTrimStart := trimStart clip ?? 0 in
  let currentTrimEnd := trimEnd clip ?? originalDuration clip in
  let newTrimStart := trimStart' ?? currentTrimStart in
  let newTrimEnd := trimEnd' ?? currentTrimEnd in
  let validTrimStart := Math_max 0 (Math_min newTrimStart (originalDuration clip)) in
  let validTrimEnd :=
    Math_max (validTrimStart + 0.1) (Math_min newTrimEnd (originalDuration clip)) in
  let newDuration := validTrimEnd - validTrimStart in
  let newStartTime :=
    match trimStart' with
    | Some _ =>
        let trimDelta := validTrimStart - currentTrimStart in
        startTime clip + trimDelta
    | None => startTime clip
    end in
  mkClip newDuration (Some validTrimStart) (Some validTrimEnd)
         (originalDuration clip) newStartTime.

End Binary64.

(** * Vocabulary of the properties *)

(** [l.reduce((m, x) => Math.max(m, f(x)), a)] *)
Definition reduceMax {A : Type} (f : A -> Q) (l : list A) (a : Q) : Q :=
  fold_left (fun m x => Qmax m (f x)) l a.

(** Every clip ends within the total duration. *)
Definition covers (s : TimelineStore) : Prop :=
  forall t c, In t (tracks s) -> In c (clips t) -> clipEnd c <= totalDuration s.

(** [c] is the clip at index [j] of the track at index [i]. *)
Definition clipAt (s : TimelineStore) (i j : nat) (c : TimelineClip) : Prop :=
  exists t, nth_error (tracks s) i = Some t /\ nth_error (clips t) j = Some c.

(** Sample data for the scenarios: clip data of a given duration, and the
    state with one video track holding one 10 second clip. *)
Definition clipOfDuration (d : Q) : ClipData :=
  mkClipData "m" "clip" d None None d 0.

Definition sampleClip : TimelineClip :=
  mkClip "c1" "m" "clip" 10 (Some 0) (Some 10) 10 0.

Definition sampleTrack : TimelineTrack :=
  mkTrack "A" "Video Track" video [sampleClip].

Definition sampleState : TimelineStore :=
  run [AddTrack video "A"; AddClipToTrack "A" (clipOfDuration 10) "c1"]
      initialState.

(** The invariant the specification asks of every clip. *)
Definition trimInvariant (c : TimelineClip) : Prop :=
  exists ts te,
    trimStart c = Some ts /\ trimEnd c = Some te /\
    0 <= ts /\ ts < te /\ te <= originalDuration c /\
    (1#10) <= te - ts /\ duration c == te - ts.

(** [c] is a clip of some track of [s]. *)
Definition hasClip (s : TimelineStore) (c : TimelineClip) : Prop :=
  exists t, In t (tracks s) /\ In c (clips t).

(** The clips an action creates from the clips of [s]. *)
Inductive produced (s : TimelineStore) : Action -> TimelineClip -> Prop :=
| produced_add trackId clipData uuid :
    produced s (AddClipToTrack trackId clipData uuid)
             (newClip clipData uuid (newClipStart trackId s))
| produced_trim trackId clipId a b c :
    hasClip s c -> clip_id c = clipId ->
    produced s (TrimClip trackId clipId a b) (trimmed c a b)
| produced_splitFirst trackId clipId x uuid1 uuid2 c :
    hasClip s c ->
    produced s (SplitClip trackId clipId x uuid1 uuid2) (splitFirst c x uuid1)
| produced_splitSecond trackId clipId x uuid1 uuid2 c :
    hasClip s c ->
    produced s (SplitClip trackId clipId x uuid1 uuid2)
             (splitSecond c x uuid1 uuid2)
| produced_update fromTrackId toTrackId clipId x c :
    hasClip s c ->
    produced s (UpdateClipStartTime fromTrackId toTrackId clipId x)
             (updatedClip c x).

(** [duration == trimEnd - trimStart], with the defaults the code reads the
    optional fields with. *)
Definition durationInvariant (c : TimelineClip) : Prop :=
  duration c == (trimEnd c ?? originalDuration c) - (trimStart c ?? 0).

(** The total duration is what [updateTotalDuration] would set. *)
Definition upToDate (s : TimelineStore) : Prop :=
  totalDuration s = Qmax (maxDuration (tracks s)) 300.

(** The playhead is inside the clip's interval
    [[startTime, startTime + duration)]. *)
Definition inInterval (p : Q) (c : TimelineClip) : Prop :=
  startTime c <= p /\ p < startTime c + duration c.

(** The clip's media item is in the registry. *)
Definition resolves (mediaItems : list MediaItem) (c : TimelineClip) : Prop :=
  exists m, In m mediaItems /\ media_id m = mediaId c.

Definition eligible (mediaItems : list MediaItem) (p : Q) (c : TimelineClip)
  : Prop :=
  inInterval p c /\ resolves mediaItems c.

(** Every clip of the state starts at or after 0. *)
Definition startsNonneg (s : TimelineStore) : Prop :=
  forall c, hasClip s c -> 0 <= startTime c.

(** A [trimClip] call with a [trimStart] argument: the one action that
    shifts [startTime] by a difference it computes. *)
Definition headTrim (a : Action) : bool :=
  match a with
  | TrimClip _ _ (Some _) _ => true
  | _ => false
  end.

(** What the store leaves to its callers for [startsNonneg] to carry over:
    it does not clamp [startTime] (the drag handlers that call
    [updateClipStartTime] do) and [splitClip] does not validate its
    offset. *)
Definition keepsStarts (a : Action) : Prop :=
  match a with
  | UpdateClipStartTime _ _ _ newStartTime => 0 <= newStartTime
  | SplitClip _ _ splitTime _ _ => 0 <= splitTime
  | _ => True
  end.

(** The trim range as the handlers and [trimClip] clamp it: [trimEnd] is at
    least the sum [trimStart + 0.1] the code compares it with, and within
    [originalDuration]. *)
Definition trimClamped (c : TimelineClip) : Prop :=
  exists ts te,
    trimStart c = Some ts /\ trimEnd c = Some te /\
    0 <= ts /\ ts + (1#10) <= te /\ te <= originalDuration c /\
    duration c == te - ts.

(** No clip of the state has the id. *)
Definition noClip (clipId : string) (s : TimelineStore) : Prop :=
  Forall (fun t => Forall (fun c => clip_id c <> clipId) (clips t)) (tracks s).

(** The two clips agree in everything but [startTime]. *)
Definition sameTrim (c c' : TimelineClip) : Prop :=
  clip_id c = clip_id c' /\ mediaId c = mediaId c' /\
  clip_name c = clip_name c' /\ duration c = duration c' /\
  trimStart c = trimStart c' /\ trimEnd c = trimEnd c' /\
  originalDuration c = originalDuration c'.

(** The ids of the tracks, and of all clips, in scan order. *)
Definition trackIds (ts : list TimelineTrack) : list string := map track_id ts.

Definition clipIds (ts : list TimelineTrack) : list string :=
  map clip_id (flat_map clips ts).

(** No two tracks and no two clips of the state share an id. *)
Definition uniqueIds (s : TimelineStore) : Prop :=
  NoDup (trackIds (tracks s)) /\ NoDup (clipIds (tracks s)).

(** The identifiers an action draws are new: what [crypto.randomUUID()]
    gives, but for a collision. *)
Definition freshIds (a : Action) (s : TimelineStore) : Prop :=
  match a with
  | AddTrack _ uuid => ~ In uuid (trackIds (tracks s))
  | AddClipToTrack _ _ uuid => ~ In uuid (clipIds (tracks s))
  | SplitClip _ _ _ uuid1 uuid2 =>
      uuid1 <> uuid2 /\ ~ In uuid1 (clipIds (tracks s)) /\
      ~ In uuid2 (clipIds (tracks s))
  | _ => True
  end.

(** Every action of the run draws new identifiers. *)
Fixpoint freshRun (l : list Action) (s : TimelineStore) : Prop :=
  match l with
  | [] => True
  | a :: rest => freshIds a s /\ freshRun rest (perform a s)
  end.

(** [f] keeps the id of every track and changes only tracks with the id. *)
Definition touches (trackId : string) (f : TimelineTrack -> TimelineTrack)
  : Prop :=
  (forall t, track_id (f t) = track_id t) /\
  (forall t, track_id t <> trackId -> f t = t).

(** * Properties *)

(** ** Arithmetic of [Math.max] and [Math.min] *)

Ltac name_minmax t pf :=
  let m := fresh "m" in
  let Hm := fresh "Hm" in
  pose proof pf as Hm; set (m := t) in *; clearbody m.

(** Replaces every [Qmax] and [Qmin] by a variable with its specification,
    splits the cases and calls [lra]. *)
Ltac minmax :=
  repeat match goal with
         | |- context [Qmax ?a ?b] => name_minmax (Qmax a b) (Q.max_spec a b)
         | |- context [Qmin ?a ?b] => name_minmax (Qmin a b) (Q.min_spec a b)
         | H : context [Qmax ?a ?b] |- _ => name_minmax (Qmax a b) (Q.max_spec a b)
         | H : context [Qmin ?a ?b] |- _ => name_minmax (Qmin a b) (Q.min_spec a b)
         end;
  repeat match goal with
         | H : _ \/ _ |- _ => destruct H
         | H : _ /\ _ |- _ => destruct H
         end;
  try lra.

(** Splits conjunctions only (order relations on [Q] are left folded). *)
Ltac conjs :=
  repeat match goal with
         | |- _ /\ _ => split
         | |- _ -> _ => intro
         end.

Section FoldMax.
Context {A : Type} (f : A -> Q).

Lemma reduceMax_init (l : list A) : forall a, a <= reduceMax f l a.
Proof.
  unfold reduceMax.
  induction l as [|x l IH]; intros a; simpl; [lra|].
  specialize (IH (Qmax a (f x))). minmax.
Qed.

Lemma reduceMax_elem (l : list A) :
  forall a x, In x l -> f x <= reduceMax f l a.
Proof.
  unfold reduceMax.
  induction l as [|y l IH]; intros a x Hin; simpl; [contradiction|].
  destruct Hin as [->|Hin].
  - pose proof (reduceMax_init l (Qmax a (f x))) as H.
    unfold reduceMax in H. minmax.
  - now apply IH.
Qed.

Lemma reduceMax_attained (l : list A) :
  forall a, reduceMax f l a == a \/ exists x, In x l /\ reduceMax f l a == f x.
Proof.
  unfold reduceMax.
  induction l as [|y l IH]; intros a; simpl; [left; lra|].
  destruct (IH (Qmax a (f y))) as [H|(x & Hin & H)].
  - destruct (Q.max_spec a (f y)) as [[_ E]|[_ E]].
    + right. exists y. split; [now left|]. now rewrite H.
    + left. now rewrite H.
  - right. exists x. split; [now right|exact H].
Qed.
End FoldMax.

Lemma trackDuration_reduceMax (cs : list TimelineClip) :
  trackDuration cs = reduceMax clipEnd cs 0.
Proof. reflexivity. Qed.

Lemma maxDuration_reduceMax (ts : list TimelineTrack) :
  maxDuration ts = reduceMax (fun t => trackDuration (clips t)) ts 0.
Proof. reflexivity. Qed.

Lemma trackDuration_nonneg (cs : list TimelineClip) : 0 <= trackDuration cs.
Proof. rewrite trackDuration_reduceMax. apply reduceMax_init. Qed.

Lemma trackDuration_covers (cs : list TimelineClip) (c : TimelineClip) :
  In c cs -> clipEnd c <= trackDuration cs.
Proof. rewrite trackDuration_reduceMax. apply (reduceMax_elem clipEnd). Qed.

Lemma maxDuration_covers (ts : list TimelineTrack) (t : TimelineTrack)
    (c : TimelineClip) :
  In t ts -> In c (clips t) -> clipEnd c <= maxDuration ts.
Proof.
  intros Ht Hc. rewrite maxDuration_reduceMax.
  pose proof (reduceMax_elem (fun t => trackDuration (clips t)) ts 0 t Ht) as H.
  pose proof (trackDuration_covers _ _ Hc). simpl in H. lra.
Qed.

(** ** The shape of the actions *)

Lemma tracks_updateTotalDuration (s : TimelineStore) :
  tracks (updateTotalDuration s) = tracks s.
Proof. reflexivity. Qed.

Lemma run_snoc (l : list Action) (a : Action) (s : TimelineStore) :
  run (l ++ [a]) s = perform a (run l s).
Proof. unfold run. now rewrite fold_left_app. Qed.

Lemma recomputes_updateTotalDuration (a : Action) (s : TimelineStore) :
  recomputes a = true -> exists s0, perform a s = updateTotalDuration s0.
Proof.
  destruct a; simpl; try discriminate; intros _; eexists; reflexivity.
Qed.

Lemma totalDuration_monotone (a : Action) (s : TimelineStore) :
  recomputes a = false -> totalDuration s <= totalDuration (perform a s).
Proof.
  destruct a; simpl; try discriminate; intros _; try lra.
  unfold setPlayheadPosition.
  destruct (Qlt_le_dec _ _); simpl; minmax.
Qed.

(** What the non-recomputing actions do to the clips: each track of the new
    state has the clips of a track of the old state, or none. *)
Lemma clips_not_recomputing (a : Action) (s : TimelineStore) (t : TimelineTrack) :
  recomputes a = false -> In t (tracks (perform a s)) ->
  In t (tracks s) \/ clips t = [].
Proof.
  destruct a; simpl; try discriminate; intros _ Hin; auto.
  - apply in_app_or in Hin. destruct Hin as [Hin|[<-|[]]]; auto.
  - apply filter_In in Hin. now left.
  - unfold setPlayheadPosition in Hin. destruct (Qlt_le_dec _ _); auto.
Qed.

Lemma updateTotalDuration_covers (s : TimelineStore) :
  covers (updateTotalDuration s).
Proof.
  intros t c Ht Hc. simpl in *.
  pose proof (maxDuration_covers _ _ _ Ht Hc). minmax.
Qed.

Lemma perform_covers (a : Action) (s : TimelineStore) :
  covers s -> covers (perform a s).
Proof.
  intros Hs. destruct (recomputes a) eqn:R.
  - destruct (recomputes_updateTotalDuration a s R) as [s0 ->].
    apply updateTotalDuration_covers.
  - intros t c Ht Hc.
    pose proof (totalDuration_monotone a s R) as Hm.
    destruct (clips_not_recomputing a s t R Ht) as [Hold|E].
    + specialize (Hs t c Hold Hc). lra.
    + rewrite E in Hc. contradiction.
Qed.

Lemma run_covers (l : list Action) : covers (run l initialState).
Proof.
  induction l as [|a l IH] using rev_ind.
  - intros t c [].
  - rewrite run_snoc. now apply perform_covers.
Qed.

Lemma run_floor (l : list Action) :
  existsb recomputes l = true -> 300 <= totalDuration (run l initialState).
Proof.
  induction l as [|a l IH] using rev_ind; [discriminate|].
  rewrite existsb_app, run_snoc. simpl. rewrite orb_false_r.
  destruct (recomputes a) eqn:R.
  - intros _. destruct (recomputes_updateTotalDuration a (run l initialState) R)
      as [s0 ->]. simpl. minmax.
  - rewrite orb_false_r. intros H. specialize (IH H).
    pose proof (totalDuration_monotone a (run l initialState) R). lra.
Qed.

(** ** Looking a clip up by position *)

Lemma trimClip_clipAt (s : TimelineStore) (trackId clipId : string)
    (a b : option Q) (i j : nat) (t : TimelineTrack) (c : TimelineClip) :
  nth_error (tracks s) i = Some t -> track_id t = trackId ->
  nth_error (clips t) j = Some c -> clip_id c = clipId ->
  clipAt (trimClip trackId clipId a b s) i j (trimmed c a b).
Proof.
  intros Ht <- Hc <-. unfold clipAt, trimClip.
  rewrite tracks_updateTotalDuration. simpl.
  rewrite nth_error_map, Ht. simpl. rewrite String.eqb_refl. simpl.
  eexists. split; [reflexivity|]. simpl.
  rewrite nth_error_map, Hc. simpl. now rewrite String.eqb_refl.
Qed.

Lemma sampleState_tracks : tracks sampleState = [sampleTrack].
Proof. reflexivity. Qed.

(** ** Total duration *)

(** C6, as the code has it.  Every clip of every reachable state ends within
    [totalDuration].  The floor of 300 is set by [updateTotalDuration]: it
    holds right after every action that recomputes the total duration, and
    in every state reached by a run that contains such an action. *)
Theorem totalDuration_bounds :
  (forall l t c,
      In t (tracks (run l initialState)) -> In c (clips t) ->
      startTime c + duration c <= totalDuration (run l initialState)) /\
  (forall l,
      existsb recomputes l = true -> 300 <= totalDuration (run l initialState)) /\
  (forall a s,
      recomputes a = true ->
      300 <= totalDuration (perform a s) /\
      forall t c, In t (tracks (perform a s)) -> In c (clips t) ->
                  startTime c + duration c <= totalDuration (perform a s)).
Proof.
  split; [|split].
  - intros l t c Ht Hc. exact (run_covers l t c Ht Hc).
  - exact run_floor.
  - intros a s R. destruct (recomputes_updateTotalDuration a s R) as [s0 ->].
    split; [simpl; minmax|]. apply updateTotalDuration_covers.
Qed.

(** C6, as stated, fails: the initial state has [totalDuration = 0], and
    [addTrack] does not recompute it. *)
Lemma totalDuration_floor_fails_initially :
  ~ 300 <= totalDuration initialState /\
  ~ 300 <= totalDuration (snd (addTrack video "A" initialState)) /\
  totalDuration (snd (addTrack video "A" initialState)) = 0.
Proof. repeat split; simpl; lra. Qed.

(** ** Trimming *)

(** C4.  For the clip with the given ids, [trimClip] with a [trimStart]
    argument sets [trimStart] to the clamped value and shifts [startTime] by
    the clamped value minus the previous [trimStart]; without a [trimStart]
    argument it leaves [startTime] as it was.  On a clip with
    [startTime 0], [originalDuration 10], [trimStart 0], [trimEnd 10],
    [trimClip(track, clip, 2)] gives [trimStart 2], [trimEnd 10],
    [duration 8], [startTime 2]. *)
Theorem trimClip_startTime (s : TimelineStore) (trackId clipId : string)
    (i j : nat) (t : TimelineTrack) (c : TimelineClip) :
  nth_error (tracks s) i = Some t -> track_id t = trackId ->
  nth_error (clips t) j = Some c -> clip_id c = clipId ->
  (forall x b, exists c',
      clipAt (trimClip trackId clipId (Some x) b s) i j c' /\
      trimStart c' = Some (Qmax 0 (Qmin x (originalDuration c))) /\
      startTime c' ==
        startTime c + (Qmax 0 (Qmin x (originalDuration c)) - (trimStart c ?? 0))) /\
  (forall b, exists c',
      clipAt (trimClip trackId clipId None b s) i j c' /\
      startTime c' = startTime c) /\
  (startTime c = 0 -> originalDuration c = 10 ->
   trimStart c = Some 0 -> trimEnd c = Some 10 ->
   exists c',
     clipAt (trimClip trackId clipId (Some 2) None s) i j c' /\
     trimStart c' = Some 2 /\ trimEnd c' = Some 10 /\
     duration c' == 8 /\ startTime c' == 2).
Proof.
  intros Ht Hid Hc Hcid.
  pose proof (fun a b => trimClip_clipAt s trackId clipId a b i j t c Ht Hid Hc Hcid)
    as Hat.
  split; [|split].
  - intros x b. exists (trimmed c (Some x) b).
    split; [apply Hat|]. split; simpl; reflexivity.
  - intros b. exists (trimmed c None b). split; [apply Hat|reflexivity].
  - intros Hs Ho Hts Hte. exists (trimmed c (Some 2) None).
    split; [apply Hat|].
    unfold trimmed. simpl. rewrite Hs, Ho, Hts, Hte. simpl.
    repeat split; reflexivity.
Qed.

Lemma trimClip_startTime_witness :
  exists c',
    clipAt (trimClip "A" "c1" (Some 2) None sampleState) 0 0 c' /\
    trimStart c' = Some 2 /\ trimEnd c' = Some 10 /\
    duration c' == 8 /\ startTime c' == 2.
Proof.
  exact (proj2 (proj2 (trimClip_startTime sampleState "A" "c1" 0 0
                         sampleTrack sampleClip eq_refl eq_refl eq_refl eq_refl))
               eq_refl eq_refl eq_refl eq_refl).
Defined.

(** ** Lists: [findIndex] and [splice] *)

Arguments splice : simpl never.

Lemma in_firstn {A : Type} (n : nat) (l : list A) (x : A) :
  In x (firstn n l) -> In x l.
Proof.
  intros H. rewrite <- (firstn_skipn n l). apply in_or_app. now left.
Qed.

Lemma in_skipn {A : Type} (n : nat) (l : list A) (x : A) :
  In x (skipn n l) -> In x l.
Proof.
  intros H. rewrite <- (firstn_skipn n l). apply in_or_app. now right.
Qed.

Lemma in_splice {A : Type} (l : list A) (i d : Z) (items : list A) (x : A) :
  In x (fst (splice l i d items)) -> In x l \/ In x items.
Proof.
  unfold splice. simpl. intros H.
  apply in_app_or in H. destruct H as [H|H].
  - left. eapply in_firstn; eassumption.
  - apply in_app_or in H. destruct H as [H|H]; [now right|].
    left. eapply in_skipn; eassumption.
Qed.

Lemma in_splice_removed {A : Type} (l : list A) (i d : Z) (items : list A) (x : A) :
  In x (snd (splice l i d items)) -> In x l.
Proof.
  unfold splice. simpl. intros H.
  eapply in_skipn. eapply in_firstn. eassumption.
Qed.

Lemma splice_at {A : Type} (l1 l2 items : list A) (c : A) :
  splice (l1 ++ c :: l2) (Z.of_nat (length l1)) 1 items
  = (l1 ++ items ++ l2, [c]).
Proof.
  unfold splice, splice_start.
  assert (Hlen : length (l1 ++ c :: l2) = (length l1 + S (length l2))%nat)
    by (rewrite length_app; reflexivity).
  rewrite Hlen.
  destruct (Z.ltb_spec (Z.of_nat (length l1)) 0) as [Hneg|_]; [lia|].
  replace (Z.to_nat (Z.min (Z.of_nat (length l1))
                           (Z.of_nat (length l1 + S (length l2)))))
    with (length l1) by lia.
  replace (Z.to_nat (Z.min (Z.max 1 0)
                           (Z.of_nat (length l1 + S (length l2))
                            - Z.of_nat (length l1))))
    with 1%nat by lia.
  f_equal.
  - rewrite firstn_app, firstn_all, Nat.sub_diag. simpl. rewrite app_nil_r.
    f_equal. f_equal.
    rewrite skipn_app, skipn_all2 by lia.
    replace (length l1 + 1 - length l1)%nat with 1%nat by lia. reflexivity.
  - rewrite skipn_app, skipn_all, Nat.sub_diag. reflexivity.
Qed.

Lemma findIndex_first {A : Type} (p : A -> bool) (l1 l2 : list A) (c : A) :
  Forall (fun x => p x = false) l1 -> p c = true ->
  findIndex p (l1 ++ c :: l2) = Z.of_nat (length l1).
Proof.
  intros Hl1 Hc. induction Hl1 as [|x l1 Hx _ IH]; simpl.
  - now rewrite Hc.
  - rewrite Hx, IH.
    destruct (Z.eqb_spec (Z.of_nat (length l1)) (-1)); lia.
Qed.

Lemma findIndex_none {A : Type} (p : A -> bool) (l : list A) :
  Forall (fun x => p x = false) l -> findIndex p l = (-1)%Z.
Proof.
  induction 1 as [|x l Hx _ IH]; simpl; [reflexivity|].
  now rewrite Hx, IH.
Qed.

Lemma findIndex_found {A : Type} (p : A -> bool) (l : list A) :
  findIndex p l <> (-1)%Z ->
  exists l1 c l2,
    l = l1 ++ c :: l2 /\ Forall (fun x => p x = false) l1 /\ p c = true /\
    findIndex p l = Z.of_nat (length l1).
Proof.
  induction l as [|x l IH]; simpl; [congruence|].
  destruct (p x) eqn:Hx.
  - intros _. exists [], x, l. repeat split; auto.
  - destruct (Z.eqb_spec (findIndex p l) (-1)) as [E|E]; [congruence|].
    intros _. destruct (IH E) as (l1 & c & l2 & -> & Hl1 & Hc & Hi).
    exists (x :: l1), c, l2. repeat split; auto. simpl length. lia.
Qed.

Lemma nth_error_middle {A : Type} (l1 l2 : list A) (c : A) :
  nth_error (l1 ++ c :: l2) (length l1) = Some c.
Proof.
  rewrite nth_error_app2 by lia. now rewrite Nat.sub_diag.
Qed.

(** ** Where the clips of the next state come from *)

Lemma findClip_hasClip (s : TimelineStore) (fromTrackId clipId : string)
    (c : TimelineClip) :
  findClip fromTrackId clipId s = Some c -> hasClip s c.
Proof.
  unfold findClip. destruct (find _ (tracks s)) as [t|] eqn:Ft; [|discriminate].
  intros Fc. apply find_some in Ft, Fc. exists t. tauto.
Qed.

(** Every clip of the state after an action is a clip of the state before
    it or one the action produced. *)
Lemma perform_clips (a : Action) (s : TimelineStore) (c' : TimelineClip) :
  hasClip (perform a s) c' -> hasClip s c' \/ produced s a c'.
Proof.
  intros (t' & Ht' & Hc').
  destruct a;
    try (left; exists t'; split; [exact Ht'|exact Hc']);
    cbn in Ht'.
  - (* addTrack *)
    apply in_app_or in Ht'. destruct Ht' as [Ht'|[<-|[]]]; [|contradiction].
    left. now exists t'.
  - (* removeTrack *)
    apply filter_In in Ht'. left. exists t'. tauto.
  - (* addClipToTrack *)
    apply in_map_iff in Ht'. destruct Ht' as (t & <- & Ht).
    destruct (track_id t =? trackId)%string; [|left; now exists t].
    cbn in Hc'. apply in_app_or in Hc'. destruct Hc' as [Hc'|[<-|[]]].
    + left. now exists t.
    + right. constructor.
  - (* removeClipFromTrack *)
    apply in_map_iff in Ht'. destruct Ht' as (t & <- & Ht).
    destruct (track_id t =? trackId)%string; [|left; now exists t].
    cbn in Hc'. apply filter_In in Hc'. left. exists t. tauto.
  - (* moveClipToTrack *)
    destruct (findClip fromTrackId clipId s) as [m|] eqn:Fm;
      [|left; now exists t'].
    cbn in Ht'. apply in_map_iff in Ht'. destruct Ht' as (t & <- & Ht).
    destruct (track_id t =? fromTrackId)%string.
    { cbn in Hc'. apply filter_In in Hc'. left. exists t. tauto. }
    destruct (track_id t =? toTrackId)%string; [|left; now exists t].
    cbn in Hc'. apply in_splice in Hc'. destruct Hc' as [Hc'|[<-|[]]].
    + left. now exists t.
    + left. eapply findClip_hasClip; eassumption.
  - (* reorderClipInTrack *)
    apply in_map_iff in Ht'. destruct Ht' as (t & <- & Ht).
    left. exists t. split; [exact Ht|].
    destruct (negb (track_id t =? trackId)%string); [exact Hc'|].
    destruct (Z.eqb _ (-1)); [exact Hc'|].
    destruct (splice (clips t) _ 1 []) as [newClips removed] eqn:Es.
    assert (Hnew : forall x, In x newClips -> In x (clips t)).
    { intros x Hx. change newClips with (fst (newClips, removed)) in Hx.
      rewrite <- Es in Hx. apply in_splice in Hx. destruct Hx as [Hx|[]].
      exact Hx. }
    assert (Hrem : forall x, In x removed -> In x (clips t)).
    { intros x Hx. change removed with (snd (newClips, removed)) in Hx.
      rewrite <- Es in Hx. eapply in_splice_removed; eassumption. }
    destruct removed as [|movedClip rest]; [exact Hc'|].
    cbn in Hc'. apply in_splice in Hc'. destruct Hc' as [Hc'|[<-|[]]].
    + now apply Hnew.
    + apply Hrem. now left.
  - (* trimClip *)
    apply in_map_iff in Ht'. destruct Ht' as (t & <- & Ht).
    destruct (negb (track_id t =? trackId)%string); [left; now exists t|].
    cbn in Hc'. apply in_map_iff in Hc'. destruct Hc' as (c & <- & Hc).
    destruct (String.eqb_spec (clip_id c) clipId) as [E|_];
      [|left; now exists t].
    right. constructor; [now exists t|exact E].
  - (* splitClip *)
    apply in_map_iff in Ht'. destruct Ht' as (t & <- & Ht).
    destruct (negb (track_id t =? trackId)%string); [left; now exists t|].
    destruct (Z.eqb _ (-1)); [left; now exists t|].
    destruct (nth_error (clips t) _) as [c|] eqn:En; [|left; now exists t].
    apply nth_error_In in En.
    cbn in Hc'. apply in_splice in Hc'.
    destruct Hc' as [Hc'|[<-|[<-|[]]]].
    + left. now exists t.
    + right. constructor. now exists t.
    + right. constructor. now exists t.
  - (* setPlayheadPosition *)
    unfold setPlayheadPosition in Ht'. cbv zeta in Ht'.
    destruct (Qlt_le_dec _ _); left; exists t'; split; assumption.
  - (* updateClipStartTime *)
    destruct (findClip fromTrackId clipId s) as [m|] eqn:Fm;
      [|left; now exists t'].
    apply findClip_hasClip in Fm.
    cbn in Ht'. apply in_map_iff in Ht'. destruct Ht' as (t & <- & Ht).
    destruct (andb _ _).
    { cbn in Hc'. apply in_map_iff in Hc'. destruct Hc' as (c & <- & Hc).
      destruct (clip_id c =? clipId)%string; [|left; now exists t].
      right. now constructor. }
    destruct (track_id t =? fromTrackId)%string.
    { cbn in Hc'. apply filter_In in Hc'. left. exists t. tauto. }
    destruct (track_id t =? toTrackId)%string; [|left; now exists t].
    cbn in Hc'. apply in_app_or in Hc'. destruct Hc' as [Hc'|[<-|[]]].
    + left. now exists t.
    + right. now constructor.
Qed.

(** ** Duration is the trimmed length *)

Lemma produced_durationInvariant (s : TimelineStore) (a : Action)
    (c' : TimelineClip) :
  (forall c, hasClip s c -> durationInvariant c) ->
  produced s a c' -> durationInvariant c'.
Proof.
  intros Hs Hp.
  destruct Hp as [ | | | |? ? ? ? c Hc]; unfold durationInvariant; simpl;
    try lra.
  exact (Hs c Hc).
Qed.

Lemma run_durationInvariant (l : list Action) (c : TimelineClip) :
  hasClip (run l initialState) c -> durationInvariant c.
Proof.
  revert c. induction l as [|a l IH] using rev_ind; intros c.
  - intros (t & [] & _).
  - rewrite run_snoc. intros H. apply perform_clips in H.
    destruct H as [H|H]; [now apply IH|].
    eapply produced_durationInvariant; eassumption.
Qed.

Lemma produced_trimsSet (s : TimelineStore) (a : Action) (c' : TimelineClip) :
  (forall c, hasClip s c -> trimStart c <> None /\ trimEnd c <> None) ->
  produced s a c' -> trimStart c' <> None /\ trimEnd c' <> None.
Proof.
  intros Hs Hp.
  destruct Hp as [ | |? ? ? ? ? c Hc|? ? ? ? ? c Hc|? ? ? ? c Hc]; simpl;
    try (split; discriminate);
    destruct (Hs c Hc) as [H1 H2]; split; (assumption || discriminate).
Qed.

Lemma run_trimsSet (l : list Action) (c : TimelineClip) :
  hasClip (run l initialState) c -> trimStart c <> None /\ trimEnd c <> None.
Proof.
  revert c. induction l as [|a l IH] using rev_ind; intros c.
  - intros (t & [] & _).
  - rewrite run_snoc. intros H. apply perform_clips in H.
    destruct H as [H|H]; [now apply IH|].
    eapply produced_trimsSet; eassumption.
Qed.

(** C1, as the code has it.  At all times, every clip of every reachable
    state has both trim fields set and [duration == trimEnd - trimStart].
    Right after [trimClip], whatever its arguments, the trimmed clip has
    moreover [0 <= trimStart < trimEnd], [trimEnd] at least the sum
    [trimStart + 0.1] the code clamps it with, and
    [trimStart <= originalDuration] when [originalDuration] is not
    negative. *)
Theorem trimClip_trim_bounds :
  (forall l c,
      hasClip (run l initialState) c ->
      exists ts te,
        trimStart c = Some ts /\ trimEnd c = Some te /\ duration c == te - ts) /\
  (forall s trackId clipId a b i j t c,
      nth_error (tracks s) i = Some t -> track_id t = trackId ->
      nth_error (clips t) j = Some c -> clip_id c = clipId ->
      exists c' ts te,
        clipAt (trimClip trackId clipId a b s) i j c' /\
        trimStart c' = Some ts /\ trimEnd c' = Some te /\
        originalDuration c' = originalDuration c /\
        0 <= ts /\ ts < te /\ ts + (1#10) <= te /\ duration c' == te - ts /\
        (0 <= originalDuration c -> ts <= originalDuration c)).
Proof.
  split.
  - intros l c Hc.
    pose proof (run_durationInvariant l c Hc) as Hd.
    destruct (run_trimsSet l c Hc) as [Hs He].
    unfold durationInvariant in Hd.
    destruct (trimStart c) as [ts|]; [|contradiction].
    destruct (trimEnd c) as [te|]; [|contradiction].
    exists ts, te. now repeat split.
  - intros s trackId clipId a b i j t c Ht Hid Hc Hcid.
    exists (trimmed c a b). do 2 eexists.
    split; [now apply (trimClip_clipAt s trackId clipId a b i j t c)|].
    split; [reflexivity|]. split; [reflexivity|]. split; [reflexivity|].
    simpl. conjs; minmax.
Qed.

Lemma trimClip_trim_bounds_witness :
  exists c' ts te,
    clipAt (trimClip "A" "c1" (Some 2) (Some 12) sampleState) 0 0 c' /\
    trimStart c' = Some ts /\ trimEnd c' = Some te /\
    originalDuration c' = 10 /\
    0 <= ts /\ ts < te /\ ts + (1#10) <= te /\ duration c' == te - ts /\
    (0 <= 10 -> ts <= 10).
Proof.
  exact (proj2 trimClip_trim_bounds sampleState "A"%string "c1"%string
           (Some 2) (Some 12) 0%nat 0%nat
           sampleTrack sampleClip eq_refl eq_refl eq_refl eq_refl).
Defined.

(** C1, as stated, fails in reachable states.  A split at offset 0 leaves a
    first piece with [trimStart = trimEnd] and duration 0.  A head trim up
    to [originalDuration] pushes [trimEnd] 0.1 beyond it.  And on binary64
    numbers the length stored after a trim to the minimum is below 0.1: for
    the 10 second clip trimmed to [[5, 10]], [trimClip] with [trimEnd = 5]
    sets [trimEnd] to [5 + 0.1], within [originalDuration], and stores the
    difference [(5 + 0.1) - 5], which rounds to less than 0.1. *)
Lemma trimInvariant_fails :
  (exists c,
      clipAt (run [SplitClip "A" "c1" 0 "u1" "u2"] sampleState) 0 0 c /\
      trimStart c = Some 0 /\ trimEnd c = Some 0 /\ duration c = 0 /\
      ~ trimInvariant c) /\
  (exists c,
      clipAt (run [TrimClip "A" "c1" (Some 10) None] sampleState) 0 0 c /\
      trimStart c = Some 10 /\ trimEnd c = Some (101#10) /\
      originalDuration c = 10 /\ ~ trimInvariant c) /\
  (exists c te,
      c = Binary64.trimmed
            (Binary64.trimmed
               (Binary64.mkClip 10%float (Some 0%float) (Some 10%float)
                                10%float 0%float)
               (Some 5%float) None)
            None (Some 5%float) /\
      Binary64.trimStart c = Some 5%float /\
      Binary64.trimEnd c = Some te /\
      PrimFloat.leb (5 + 0.1)%float te = true /\
      PrimFloat.leb te (Binary64.originalDuration c) = true /\
      Binary64.duration c = (te - 5)%float /\
      PrimFloat.ltb (Binary64.duration c) 0.1%float = true).
Proof.
  split; [|split].
  - eexists. split; [eexists; split; reflexivity|].
    conjs; try reflexivity.
    intros (ts & te & H1 & H2 & H3 & H4 & H5 & H6 & H7); simpl in *.
    injection H1 as <-; injection H2 as <-. minmax.
  - eexists. split; [eexists; split; reflexivity|].
    conjs; try reflexivity.
    intros (ts & te & H1 & H2 & H3 & H4 & H5 & H6 & H7); simpl in *.
    injection H1 as <-; injection H2 as <-. minmax.
  - do 2 eexists. split; [reflexivity|]. repeat split; reflexivity.
Qed.


(** ** Splitting *)

Lemma splitClip_track (s : TimelineStore) (trackId clipId : string)
    (splitTime : Q) (uuid1 uuid2 : string) (i : nat) (t : TimelineTrack)
    (before after : list TimelineClip) (c : TimelineClip) :
  nth_error (tracks s) i = Some t -> track_id t = trackId ->
  clips t = before ++ c :: after -> clip_id c = clipId ->
  Forall (fun c' => clip_id c' <> clipId) before ->
  nth_error (tracks (splitClip trackId clipId splitTime uuid1 uuid2 s)) i
  = Some (with_clips t (before ++ splitFirst c splitTime uuid1
                               :: splitSecond c splitTime uuid1 uuid2 :: after)).
Proof.
  intros Ht <- Hcs <- Hbefore.
  unfold splitClip. rewrite tracks_updateTotalDuration. cbn [tracks set_tracks].
  rewrite nth_error_map, Ht. cbn [option_map].
  rewrite String.eqb_refl. cbn [negb].
  assert (Hidx : findIndex (fun clip => (clip_id clip =? clip_id c)%string) (clips t)
                 = Z.of_nat (length before)).
  { rewrite Hcs. apply findIndex_first.
    - eapply Forall_impl; [|exact Hbefore].
      intros x Hx. now apply String.eqb_neq.
    - apply String.eqb_refl. }
  rewrite Hidx.
  destruct (Z.eqb_spec (Z.of_nat (length before)) (-1)) as [E|_]; [lia|].
  rewrite Nat2Z.id, Hcs, nth_error_middle, splice_at. reflexivity.
Qed.

(** C2.  In a reachable state, for a track with the given id holding, as the
    first clip with the given id, a clip [c] of duration [D], and for
    [0 <= splitTime <= D]: [splitClip] puts two clips in the place of [c],
    with the drawn ids and the names suffixed [" (1)"] and [" (2)"]; the
    first keeps [trimStart] and ends at [trimStart + splitTime], the second
    starts there and keeps [trimEnd]; the durations add up to [D], the
    ranges are in order and share only their boundary, and the second clip
    starts on the timeline where the first one ends. *)
Theorem splitClip_tiles (l : list Action) (s : TimelineStore)
    (trackId clipId : string) (splitTime : Q) (uuid1 uuid2 : string) (i : nat)
    (t : TimelineTrack) (before after : list TimelineClip) (c : TimelineClip) :
  s = run l initialState ->
  nth_error (tracks s) i = Some t -> track_id t = trackId ->
  clips t = before ++ c :: after -> clip_id c = clipId ->
  Forall (fun c' => clip_id c' <> clipId) before ->
  0 <= splitTime -> splitTime <= duration c ->
  exists t' c1 c2,
    nth_error (tracks (splitClip trackId clipId splitTime uuid1 uuid2 s)) i
      = Some t' /\
    track_id t' = track_id t /\
    clips t' = before ++ c1 :: c2 :: after /\
    clip_id c1 = uuid1 /\ clip_id c2 = uuid2 /\
    clip_name c1 = (clip_name c ++ " (1)")%string /\
    clip_name c2 = (clip_name c ++ " (2)")%string /\
    trimStart c1 = trimStart c /\
    trimEnd c1 = Some ((trimStart c ?? 0) + splitTime) /\
    trimStart c2 = Some ((trimStart c ?? 0) + splitTime) /\
    trimEnd c2 = trimEnd c /\
    duration c1 + duration c2 == duration c /\
    duration c1 == splitTime /\
    (trimStart c ?? 0) <= (trimStart c ?? 0) + splitTime /\
    (trimStart c ?? 0) + splitTime <= (trimEnd c ?? originalDuration c) /\
    startTime c1 = startTime c /\
    startTime c2 = startTime c1 + duration c1.
Proof.
  intros -> Ht Hid Hcs Hcid Hbefore H0 HD.
  assert (Hinv : durationInvariant c).
  { apply (run_durationInvariant l). exists t. split.
    - eapply nth_error_In; eassumption.
    - rewrite Hcs. apply in_elt. }
  unfold durationInvariant in Hinv.
  exists (with_clips t (before ++ splitFirst c splitTime uuid1
                               :: splitSecond c splitTime uuid1 uuid2 :: after)),
    (splitFirst c splitTime uuid1), (splitSecond c splitTime uuid1 uuid2).
  split; [now apply splitClip_track|].
  cbn [with_clips track_id clips splitFirst splitSecond clip_id clip_name
       trimStart trimEnd duration startTime].
  conjs; try reflexivity; lra.
Qed.

Lemma splitClip_tiles_witness :
  exists t' c1 c2,
    nth_error (tracks (splitClip "A" "c1" 4 "u1" "u2" sampleState)) 0 = Some t' /\
    track_id t' = "A"%string /\
    clips t' = [] ++ c1 :: c2 :: [] /\
    clip_id c1 = "u1"%string /\ clip_id c2 = "u2"%string /\
    clip_name c1 = "clip (1)"%string /\
    clip_name c2 = "clip (2)"%string /\
    trimStart c1 = Some 0 /\
    trimEnd c1 = Some (0 + 4) /\
    trimStart c2 = Some (0 + 4) /\
    trimEnd c2 = Some 10 /\
    duration c1 + duration c2 == 10 /\
    duration c1 == 4 /\
    0 <= 0 + 4 /\
    0 + 4 <= 10 /\
    startTime c1 = 0 /\
    startTime c2 = startTime c1 + duration c1.
Proof.
  refine (splitClip_tiles
            [AddTrack video "A"; AddClipToTrack "A" (clipOfDuration 10) "c1"]
            sampleState "A" "c1" 4 "u1" "u2" 0 sampleTrack [] [] sampleClip
            eq_refl eq_refl eq_refl eq_refl eq_refl (Forall_nil _) _ _);
    simpl; lra.
Defined.

(** ** Adding clips *)

Lemma find_first {A : Type} (p : A -> bool) (l1 l2 : list A) (x : A) :
  Forall (fun y => p y = false) l1 -> p x = true ->
  find p (l1 ++ x :: l2) = Some x.
Proof.
  intros Hl1 Hx. induction Hl1 as [|y l1 Hy _ IH]; simpl.
  - now rewrite Hx.
  - now rewrite Hy.
Qed.

Lemma find_absent {A : Type} (p : A -> bool) (l : list A) :
  Forall (fun y => p y = false) l -> find p l = None.
Proof.
  induction 1 as [|y l Hy _ IH]; simpl; [reflexivity|]. now rewrite Hy.
Qed.

Lemma map_unchanged {A : Type} (f : A -> A) (l : list A) :
  Forall (fun x => f x = x) l -> map f l = l.
Proof.
  induction 1 as [|x l Hx _ IH]; simpl; [reflexivity|]. now rewrite Hx, IH.
Qed.

Lemma other_tracks (trackId : string) (ts : list TimelineTrack) :
  Forall (fun t => track_id t <> trackId) ts ->
  Forall (fun t => (track_id t =? trackId)%string = false) ts.
Proof.
  apply Forall_impl. intros t Ht. now apply String.eqb_neq.
Qed.

Lemma updateTotalDuration_upToDate (s : TimelineStore) :
  upToDate (updateTotalDuration s).
Proof. reflexivity. Qed.

Lemma upToDate_fixed (s : TimelineStore) :
  upToDate s -> updateTotalDuration s = s.
Proof.
  unfold upToDate, updateTotalDuration, set_totalDuration.
  intros <-. now destruct s.
Qed.

Lemma set_tracks_same (s : TimelineStore) : set_tracks (tracks s) s = s.
Proof. now destruct s. Qed.

Lemma addClipToTrack_track (s : TimelineStore) (trackId : string)
    (clipData : ClipData) (uuid : string)
    (before after : list TimelineTrack) (t : TimelineTrack) :
  tracks s = before ++ t :: after -> track_id t = trackId ->
  Forall (fun t' => track_id t' <> trackId) before ->
  exists after',
    tracks (addClipToTrack trackId clipData uuid s)
    = before
        ++ with_clips t
             (clips t ++ [newClip clipData uuid (trackDuration (clips t))])
        :: after' /\
    length after' = length after.
Proof.
  intros Hs Hid Hbefore. apply other_tracks in Hbefore.
  assert (Hstart : newClipStart trackId s = trackDuration (clips t)).
  { unfold newClipStart. rewrite Hs, (find_first _ before after t); auto.
    rewrite Hid. apply String.eqb_refl. }
  unfold addClipToTrack. rewrite tracks_updateTotalDuration.
  cbn [tracks set_tracks]. rewrite Hstart, Hs, map_app. cbn [map].
  rewrite Hid, String.eqb_refl.
  rewrite map_unchanged.
  - eexists. split; [reflexivity|]. apply length_map.
  - eapply Forall_impl; [|exact Hbefore]. cbn beta. intros x ->. reflexivity.
Qed.

(** C5, as the code has it.  For the first track with the given id,
    [addClipToTrack] appends a clip with the drawn id whose [startTime] is
    the largest of 0 and the ends ([startTime + duration]) of the clips
    already on the track (the largest end as soon as one end is not
    negative, 0 on an empty track), whatever [startTime] the caller passed,
    with [trimStart = 0] and [trimEnd = duration]; adding clips of duration
    5 and 3 to an empty track places them at 0 and 5; when no track has the
    id, the tracks stay as they are and the call is the trailing
    [updateTotalDuration] alone: it sets [totalDuration] to the largest of
    300 and the clip ends, and leaves the state as it was exactly when
    [totalDuration] already had that value. *)
Theorem addClipToTrack_appends (s : TimelineStore) (trackId : string)
    (clipData : ClipData) (uuid : string) :
  (forall before t after,
      tracks s = before ++ t :: after -> track_id t = trackId ->
      Forall (fun t' => track_id t' <> trackId) before ->
      exists t' c,
        nth_error (tracks (addClipToTrack trackId clipData uuid s)) (length before)
          = Some t' /\
        track_id t' = trackId /\
        clips t' = clips t ++ [c] /\
        clip_id c = uuid /\ mediaId c = data_mediaId clipData /\
        duration c = data_duration clipData /\
        trimStart c = Some 0 /\ trimEnd c = Some (data_duration clipData) /\
        (forall c0, In c0 (clips t) -> startTime c0 + duration c0 <= startTime c) /\
        (startTime c == 0 \/
         exists c0, In c0 (clips t) /\ startTime c == startTime c0 + duration c0) /\
        ((exists c1, In c1 (clips t) /\ 0 <= startTime c1 + duration c1) ->
         exists c0, In c0 (clips t) /\ startTime c == startTime c0 + duration c0) /\
        0 <= startTime c /\
        (clips t = [] -> startTime c = 0)) /\
  (forall before t after (data5 data3 : ClipData) (uuid5 uuid3 : string),
      tracks s = before ++ t :: after -> track_id t = trackId ->
      Forall (fun t' => track_id t' <> trackId) before ->
      clips t = [] -> data_duration data5 = 5 -> data_duration data3 = 3 ->
      exists t' c5 c3,
        nth_error (tracks (addClipToTrack trackId data3 uuid3
                             (addClipToTrack trackId data5 uuid5 s)))
                  (length before) = Some t' /\
        clips t' = [c5; c3] /\
        duration c5 = 5 /\ startTime c5 = 0 /\
        duration c3 = 3 /\ startTime c3 == 5) /\
  (Forall (fun t => track_id t <> trackId) (tracks s) ->
   tracks (addClipToTrack trackId clipData uuid s) = tracks s /\
   addClipToTrack trackId clipData uuid s = updateTotalDuration s /\
   totalDuration (addClipToTrack trackId clipData uuid s)
   = Qmax (maxDuration (tracks s)) 300 /\
   (addClipToTrack trackId clipData uuid s = s <-> upToDate s)).
Proof.
  split; [|split].
  - intros before t after Hs Hid Hbefore.
    destruct (addClipToTrack_track s trackId clipData uuid before after t
                Hs Hid Hbefore) as (after' & Htracks & _).
    exists (with_clips t
              (clips t ++ [newClip clipData uuid (trackDuration (clips t))])),
      (newClip clipData uuid (trackDuration (clips t))).
    split; [rewrite Htracks; apply nth_error_middle|].
    cbn [with_clips track_id clips newClip clip_id mediaId duration trimStart
         trimEnd startTime].
    conjs; try reflexivity; try assumption.
    + now apply trackDuration_covers.
    + rewrite trackDuration_reduceMax.
      destruct (reduceMax_attained clipEnd (clips t) 0) as [H|(c0 & Hin & H)].
      * now left.
      * right. now exists c0.
    + match goal with H : exists _, _ |- _ => destruct H as (c1 & Hin1 & Hend1) end.
      pose proof (trackDuration_covers _ _ Hin1) as Hle.
      rewrite trackDuration_reduceMax in *.
      destruct (reduceMax_attained clipEnd (clips t) 0) as [H|(c0 & Hin & H)].
      * exists c1. split; [exact Hin1|].
        change (clipEnd c1) with (startTime c1 + duration c1) in Hle. lra.
      * now exists c0.
    + apply trackDuration_nonneg.
    + match goal with H : clips t = [] |- _ => now rewrite H end.
  - intros before t after data5 data3 uuid5 uuid3 Hs Hid Hbefore Hempty H5 H3.
    destruct (addClipToTrack_track s trackId data5 uuid5 before after t
                Hs Hid Hbefore) as (after1 & Htracks1 & _).
    rewrite Hempty in Htracks1. cbn [app trackDuration fold_left] in Htracks1.
    destruct (addClipToTrack_track _ trackId data3 uuid3 before after1 _
                Htracks1 Hid Hbefore) as (after2 & Htracks2 & _).
    cbn [with_clips clips app] in Htracks2.
    do 3 eexists. split; [rewrite Htracks2; apply nth_error_middle|].
    cbn [with_clips clips newClip duration startTime].
    conjs; try reflexivity; try assumption.
    unfold trackDuration, clipEnd. cbn [fold_left newClip startTime duration].
    rewrite H5. reflexivity.
  - intros Hnone. apply other_tracks in Hnone.
    assert (E : addClipToTrack trackId clipData uuid s = updateTotalDuration s).
    { unfold addClipToTrack. rewrite map_unchanged, set_tracks_same; auto.
      eapply Forall_impl; [|exact Hnone]. cbn beta. intros x ->. reflexivity. }
    split; [now rewrite E|]. split; [exact E|]. split; [now rewrite E|].
    rewrite E. split.
    + intros H. apply (f_equal totalDuration) in H. symmetry. exact H.
    + apply upToDate_fixed.
Qed.

Lemma addClipToTrack_appends_witness :
  exists t' c5 c3,
    nth_error (tracks (addClipToTrack "A" (clipOfDuration 3) "c3"
                         (addClipToTrack "A" (clipOfDuration 5) "c5"
                            (snd (addTrack video "A" initialState)))))
              (length (@nil TimelineTrack)) = Some t' /\
    clips t' = [c5; c3] /\
    duration c5 = 5 /\ startTime c5 = 0 /\
    duration c3 = 3 /\ startTime c3 == 5.
Proof.
  exact (proj1 (proj2 (addClipToTrack_appends
                         (snd (addTrack video "A" initialState)) "A"
                         (clipOfDuration 5) "c5"))
           [] (mkTrack "A" "Video Track" video []) []
           (clipOfDuration 5) (clipOfDuration 3) "c5"%string "c3"%string
           eq_refl eq_refl (Forall_nil _) eq_refl eq_refl eq_refl).
Defined.

(** C5, as stated, fails in reachable states.  With no track of the id the
    call is not a no-op: after the playhead extended the timeline to 360
    seconds, [addClipToTrack] on a missing track sets [totalDuration] back
    to 300.  And the new clip does not start at the largest clip end when
    every end is negative: next to a clip that ends at -10 it starts at
    0. *)
Lemma addClipToTrack_not_as_stated :
  (Forall (fun t => track_id t <> "B"%string)
          (tracks (run [SetPlayheadPosition 290] sampleState)) /\
   totalDuration (run [SetPlayheadPosition 290] sampleState) == 360 /\
   totalDuration (addClipToTrack "B" (clipOfDuration 5) "c2"
                    (run [SetPlayheadPosition 290] sampleState)) == 300 /\
   addClipToTrack "B" (clipOfDuration 5) "c2"
     (run [SetPlayheadPosition 290] sampleState)
   <> run [SetPlayheadPosition 290] sampleState) /\
  (exists c0 c,
      allClips (run [UpdateClipStartTime "A" "A" "c1" (-20)] sampleState) = [c0] /\
      startTime c0 + duration c0 == -10 /\
      allClips (addClipToTrack "A" (clipOfDuration 5) "c2"
                  (run [UpdateClipStartTime "A" "A" "c1" (-20)] sampleState))
      = [c0; c] /\
      startTime c == 0 /\ ~ startTime c == startTime c0 + duration c0).
Proof.
  split.
  - split; [repeat constructor; discriminate|].
    split; [vm_compute; reflexivity|]. split; [vm_compute; reflexivity|].
    intros H. apply (f_equal totalDuration) in H. vm_compute in H.
    discriminate.
  - do 2 eexists. split; [reflexivity|].
    split; [vm_compute; reflexivity|]. split; [reflexivity|].
    split; vm_compute; congruence.
Qed.

(** ** Playhead *)

(** C8.  [setPlayheadPosition] stores [max(0, position)]; when that is more
    than [totalDuration - 30], [totalDuration] becomes
    [max(totalDuration + 60, playheadPosition + 60)], otherwise it stays;
    with [totalDuration = 300], [setPlayheadPosition(290)] leaves
    [totalDuration >= 350]. *)
Theorem setPlayheadPosition_extends :
  (forall position s,
      let s' := setPlayheadPosition position s in
      playheadPosition s' = Qmax 0 position /\
      0 <= playheadPosition s' /\
      (totalDuration s - 30 < playheadPosition s' ->
       totalDuration s'
       = Qmax (totalDuration s + 60) (playheadPosition s' + 60)) /\
      (playheadPosition s' <= totalDuration s - 30 ->
       totalDuration s' = totalDuration s) /\
      tracks s' = tracks s /\ scrollPosition s' = scrollPosition s /\
      viewportDuration s' = viewportDuration s) /\
  (forall s,
      totalDuration s == 300 ->
      playheadPosition (setPlayheadPosition 290 s) = 290 /\
      totalDuration (setPlayheadPosition 290 s) == 360 /\
      350 <= totalDuration (setPlayheadPosition 290 s)).
Proof.
  split.
  - intros position s. unfold setPlayheadPosition. cbv zeta.
    destruct (Qlt_le_dec (totalDuration s - 30) (Qmax 0 position)) as [Hlt|Hle];
      cbn [playheadPosition totalDuration tracks scrollPosition
           viewportDuration set_totalDuration set_playheadPosition];
      conjs; try reflexivity; try lra.
    all: minmax.
  - intros s H. unfold setPlayheadPosition. cbv zeta.
    change (Qmax 0 290) with 290.
    destruct (Qlt_le_dec (totalDuration s - 30) 290) as [Hlt|Hle]; [|lra].
    cbn [playheadPosition totalDuration set_totalDuration set_playheadPosition].
    conjs; try reflexivity; minmax.
Qed.

(** ** Scrolling *)

Lemma perform_scrollPosition (a : Action) (s : TimelineStore) :
  0 <= scrollPosition s -> 0 <= scrollPosition (perform a s).
Proof.
  intros H. destruct a; simpl; try lra; try exact H.
  - unfold moveClipToTrack. now destruct (findClip _ _ s).
  - unfold setPlayheadPosition. now destruct (Qlt_le_dec _ _).
  - unfold updateClipStartTime. now destruct (findClip _ _ s).
  - minmax.
Qed.

(** C9, as the code has it.  [setScrollPosition] stores its argument
    clamped to [0 .. max(0, totalDuration - viewportDuration)], so the bound
    holds right after it and calling it twice with the same argument gives
    the same state; [scrollPosition >= 0] holds in every reachable state.
    No other action clamps [scrollPosition] again. *)
Theorem setScrollPosition_clamps :
  (forall x s,
      let s' := setScrollPosition x s in
      scrollPosition s'
      = Qmax 0 (Qmin x (Qmax 0 (totalDuration s - viewportDuration s))) /\
      0 <= scrollPosition s' /\
      scrollPosition s' <= Qmax 0 (totalDuration s' - viewportDuration s')) /\
  (forall x s,
      setScrollPosition x (setScrollPosition x s) = setScrollPosition x s) /\
  (forall l, 0 <= scrollPosition (run l initialState)).
Proof.
  split; [|split].
  - intros x s. cbn. conjs; [reflexivity|minmax|minmax].
  - reflexivity.
  - induction l as [|a l IH] using rev_ind; [simpl; lra|].
    rewrite run_snoc. now apply perform_scrollPosition.
Qed.

(** C9, as stated, fails: after the longest clip is removed, or the viewport
    is enlarged, [scrollPosition] is beyond
    [max(0, totalDuration - viewportDuration)]. *)
Lemma scroll_bound_fails :
  (let s := run [AddTrack video "A";
                 AddClipToTrack "A" (clipOfDuration 1000) "c1";
                 SetScrollPosition 900;
                 RemoveClipFromTrack "A" "c1"] initialState in
   scrollPosition s = 900 /\ totalDuration s = 300 /\ viewportDuration s = 60 /\
   ~ scrollPosition s <= Qmax 0 (totalDuration s - viewportDuration s)) /\
  (let s := run [UpdateTotalDuration; SetScrollPosition 240;
                 SetViewportDuration 200] initialState in
   scrollPosition s = 240 /\ totalDuration s = 300 /\ viewportDuration s = 200 /\
   ~ scrollPosition s <= Qmax 0 (totalDuration s - viewportDuration s)).
Proof.
  split; cbv zeta; conjs; try reflexivity; vm_compute in *; congruence.
Qed.

(** ** Active clip *)

Lemma atPlayhead_inInterval (p : Q) (c : TimelineClip) :
  atPlayhead p c = true <-> inInterval p c.
Proof.
  unfold atPlayhead, inInterval. cbv zeta.
  rewrite andb_true_iff, negb_true_iff, Qle_bool_iff.
  split; intros [H1 H2]; split; try assumption.
  - apply Qnot_le_lt. intros H. apply Qle_bool_iff in H. congruence.
  - destruct (Qle_bool (startTime c + duration c) p) eqn:E; [|reflexivity].
    apply Qle_bool_iff in E. lra.
Qed.

Lemma findMedia_resolves (mediaItems : list MediaItem) (c : TimelineClip) :
  (forall m, findMedia mediaItems c = Some m ->
             In m mediaItems /\ media_id m = mediaId c) /\
  (findMedia mediaItems c = None <-> ~ resolves mediaItems c).
Proof.
  unfold findMedia, resolves. split.
  - intros m H. apply find_some in H. destruct H as [Hin H].
    split; [exact Hin|]. now apply String.eqb_eq.
  - split.
    + intros H (m & Hin & Hid).
      pose proof (find_none _ _ H m Hin) as Hm. cbn beta in Hm.
      apply String.eqb_neq in Hm. contradiction.
    + intros H. destruct (find _ mediaItems) as [m|] eqn:F; [|reflexivity].
      exfalso. apply H. apply find_some in F. exists m.
      split; [tauto|]. now apply String.eqb_eq.
Qed.

(** One step of the inner loop. *)
Lemma activeInClips_cons (mediaItems : list MediaItem) (p : Q)
    (c : TimelineClip) (rest : list TimelineClip) :
  (forall m, inInterval p c -> findMedia mediaItems c = Some m ->
             activeInClips mediaItems p (c :: rest) = Some (c, m)) /\
  (~ eligible mediaItems p c ->
   activeInClips mediaItems p (c :: rest) = activeInClips mediaItems p rest).
Proof.
  split.
  - intros m Hin Hm. simpl. apply atPlayhead_inInterval in Hin.
    now rewrite Hin, Hm.
  - intros Hne. simpl.
    destruct (atPlayhead p c) eqn:Ha; [|reflexivity].
    destruct (findMedia mediaItems c) as [m|] eqn:Fm; [|reflexivity].
    exfalso. apply Hne. split; [now apply atPlayhead_inInterval|].
    exists m. now apply findMedia_resolves.
Qed.

Lemma activeInClips_app (mediaItems : list MediaItem) (p : Q)
    (l1 l2 : list TimelineClip) :
  activeInClips mediaItems p (l1 ++ l2)
  = match activeInClips mediaItems p l1 with
    | Some found => Some found
    | None => activeInClips mediaItems p l2
    end.
Proof.
  induction l1 as [|c l1 IH]; simpl; [reflexivity|].
  destruct (atPlayhead p c); [|exact IH].
  destruct (findMedia mediaItems c); [reflexivity|exact IH].
Qed.

(** The two loops scan the clips of all tracks in order. *)
Lemma getActiveClip_flat (mediaItems : list MediaItem) (p : Q)
    (ts : list TimelineTrack) :
  getActiveClip mediaItems p ts
  = activeInClips mediaItems p (flat_map clips ts).
Proof.
  induction ts as [|t ts IH]; simpl; [reflexivity|].
  now rewrite activeInClips_app, IH.
Qed.

Lemma activeInClips_first (mediaItems : list MediaItem) (p : Q)
    (l1 l2 : list TimelineClip) (c : TimelineClip) (m : MediaItem) :
  Forall (fun c' => ~ eligible mediaItems p c') l1 ->
  inInterval p c -> findMedia mediaItems c = Some m ->
  activeInClips mediaItems p (l1 ++ c :: l2) = Some (c, m).
Proof.
  intros Hl1 Hin Hm. induction Hl1 as [|c' l1 Hc' _ IH].
  - now apply activeInClips_cons.
  - cbn [app]. rewrite (proj2 (activeInClips_cons mediaItems p c' _) Hc').
    exact IH.
Qed.

Lemma activeInClips_found (mediaItems : list MediaItem) (p : Q)
    (l : list TimelineClip) (c : TimelineClip) (m : MediaItem) :
  activeInClips mediaItems p l = Some (c, m) ->
  exists l1 l2,
    l = l1 ++ c :: l2 /\
    Forall (fun c' => ~ eligible mediaItems p c') l1 /\
    inInterval p c /\ findMedia mediaItems c = Some m.
Proof.
  induction l as [|c' l IH]; simpl; [discriminate|].
  destruct (atPlayhead p c') eqn:Ha.
  - destruct (findMedia mediaItems c') as [m'|] eqn:Fm.
    + intros [= <- <-]. exists [], l.
      conjs; auto. now apply atPlayhead_inInterval.
    + intros H. destruct (IH H) as (l1 & l2 & -> & Hl1 & Hin & Hm).
      exists (c' :: l1), l2. conjs; auto.
      constructor; [|exact Hl1]. intros [_ Hr].
      now apply findMedia_resolves in Fm.
  - intros H. destruct (IH H) as (l1 & l2 & -> & Hl1 & Hin & Hm).
    exists (c' :: l1), l2. conjs; auto.
    constructor; [|exact Hl1]. intros [Hi _].
    apply atPlayhead_inInterval in Hi. congruence.
Qed.

Lemma activeInClips_none (mediaItems : list MediaItem) (p : Q)
    (l : list TimelineClip) :
  activeInClips mediaItems p l = None <->
  Forall (fun c => ~ eligible mediaItems p c) l.
Proof.
  split.
  - induction l as [|c l IH]; [constructor|]. simpl.
    destruct (atPlayhead p c) eqn:Ha.
    + destruct (findMedia mediaItems c) as [m|] eqn:Fm; [discriminate|].
      intros H. constructor; [|now apply IH].
      intros [_ Hr]. now apply findMedia_resolves in Fm.
    + intros H. constructor; [|now apply IH].
      intros [Hi _]. apply atPlayhead_inInterval in Hi. congruence.
  - induction 1 as [|c l Hc _ IH]; [reflexivity|].
    now rewrite (proj2 (activeInClips_cons mediaItems p c l) Hc).
Qed.

(** C10.  [getActiveClip] scans the tracks in order and the clips of each
    track in order, and returns the first clip whose interval holds the
    playhead and whose media item is in the registry, with that item; it
    returns nothing exactly when no clip meets both conditions; when the
    playhead is inside the interval of exactly one clip, and that clip's
    media item is in the registry, it returns that clip. *)
Theorem getActiveClip_first_match (mediaItems : list MediaItem) (p : Q)
    (ts : list TimelineTrack) :
  (forall c m,
      getActiveClip mediaItems p ts = Some (c, m) <->
      exists l1 l2,
        flat_map clips ts = l1 ++ c :: l2 /\
        Forall (fun c' => ~ eligible mediaItems p c') l1 /\
        inInterval p c /\ findMedia mediaItems c = Some m) /\
  (forall c m,
      getActiveClip mediaItems p ts = Some (c, m) ->
      In m mediaItems /\ media_id m = mediaId c) /\
  (getActiveClip mediaItems p ts = None <->
   Forall (fun c => ~ eligible mediaItems p c) (flat_map clips ts)) /\
  (forall l1 c l2,
      flat_map clips ts = l1 ++ c :: l2 ->
      inInterval p c -> Forall (fun c' => ~ inInterval p c') (l1 ++ l2) ->
      resolves mediaItems c ->
      exists m, getActiveClip mediaItems p ts = Some (c, m)) /\
  (Forall (fun c => ~ inInterval p c) (flat_map clips ts) ->
   getActiveClip mediaItems p ts = None).
Proof.
  rewrite getActiveClip_flat.
  split; [|split; [|split; [|split]]].
  - intros c m. split.
    + apply activeInClips_found.
    + intros (l1 & l2 & -> & Hl1 & Hin & Hm). now apply activeInClips_first.
  - intros c m H. apply activeInClips_found in H.
    destruct H as (_ & _ & _ & _ & _ & Hm). now apply findMedia_resolves.
  - apply activeInClips_none.
  - intros l1 c l2 -> Hin Hothers Hres.
    apply Forall_app in Hothers. destruct Hothers as [Hl1 _].
    destruct (findMedia mediaItems c) as [m|] eqn:Fm.
    + exists m. apply activeInClips_first; auto.
      eapply Forall_impl; [|exact Hl1]. cbn beta. intros c' Hc' [Hi _]. auto.
    + now apply findMedia_resolves in Fm.
  - intros H. apply activeInClips_none.
    eapply Forall_impl; [|exact H]. cbn beta. intros c Hc [Hi _]. auto.
Qed.

(** ** Position on the timeline *)

Lemma newClipStart_nonneg (trackId : string) (s : TimelineStore) :
  0 <= newClipStart trackId s.
Proof.
  unfold newClipStart. destruct (find _ (tracks s)); [|lra].
  apply trackDuration_nonneg.
Qed.

(** ** Missing references *)

Lemma filter_unchanged {A : Type} (p : A -> bool) (l : list A) :
  Forall (fun x => p x = true) l -> filter p l = l.
Proof.
  induction 1 as [|x l Hx _ IH]; simpl; [reflexivity|]. now rewrite Hx, IH.
Qed.

(** C3, at the failing input.  In the state with the track ["A"] holding the
    clip ["c1"] and no track ["B"], [moveClipToTrack] and
    [updateClipStartTime] with the destination ["B"] remove the clip from
    ["A"] and put it nowhere: no clip is left in the state. *)
Lemma missing_destination_drops_clip :
  findClip "A" "c1" sampleState = Some sampleClip /\
  Forall (fun t => track_id t <> "B"%string) (tracks sampleState) /\
  allClips sampleState = [sampleClip] /\
  allClips (moveClipToTrack "A" "B" "c1" None sampleState) = [] /\
  allClips (updateClipStartTime "A" "B" "c1" 3 sampleState) = [] /\
  tracks (moveClipToTrack "A" "B" "c1" None sampleState) <> tracks sampleState /\
  tracks (updateClipStartTime "A" "B" "c1" 3 sampleState) <> tracks sampleState.
Proof.
  conjs; try reflexivity; try discriminate.
  repeat constructor. discriminate.
Qed.

Lemma with_clips_same (t : TimelineTrack) : with_clips t (clips t) = t.
Proof. now destruct t. Qed.

Lemma findClip_missing_track (s : TimelineStore) (trackId clipId : string) :
  Forall (fun t => track_id t <> trackId) (tracks s) ->
  findClip trackId clipId s = None.
Proof.
  intros H. unfold findClip. rewrite find_absent; [reflexivity|].
  now apply other_tracks.
Qed.

Lemma other_clips (clipId : string) (cs : list TimelineClip) :
  Forall (fun c => clip_id c <> clipId) cs ->
  Forall (fun c => (clip_id c =? clipId)%string = false) cs.
Proof.
  apply Forall_impl. intros c Hc. now apply String.eqb_neq.
Qed.

Lemma findClip_missing_clip (s : TimelineStore) (trackId clipId : string) :
  noClip clipId s -> findClip trackId clipId s = None.
Proof.
  intros H. unfold findClip.
  destruct (find _ (tracks s)) as [t|] eqn:Ft; [|reflexivity].
  apply find_some in Ft. destruct Ft as [Hin _].
  apply find_absent. apply other_clips.
  unfold noClip in H. rewrite Forall_forall in H. now apply H.
Qed.

(** Unfolds an action of the form [updateTotalDuration (set_tracks (map f
    (tracks s)) s)] and reduces the goal to [f t = t] for the tracks of [s]. *)
Ltac same_tracks s H :=
  rewrite map_unchanged; [now rewrite set_tracks_same|];
  eapply Forall_impl; [|exact H]; cbn beta.

(** X1.  The part of the missing-reference rule that the code keeps: an action
    given a track id that no track has (for the two moves: as the source),
    or a clip id that no clip has, only recomputes the total duration. *)
Lemma missing_reference_noop (s : TimelineStore) (trackId clipId : string) :
  (Forall (fun t => track_id t <> trackId) (tracks s) ->
   removeTrack trackId s = s /\
   (forall d u, addClipToTrack trackId d u s = updateTotalDuration s) /\
   removeClipFromTrack trackId clipId s = updateTotalDuration s /\
   (forall i, reorderClipInTrack trackId clipId i s = updateTotalDuration s) /\
   (forall a b, trimClip trackId clipId a b s = updateTotalDuration s) /\
   (forall x u1 u2, splitClip trackId clipId x u1 u2 s = updateTotalDuration s) /\
   (forall to i, moveClipToTrack trackId to clipId i s = updateTotalDuration s) /\
   (forall to x, updateClipStartTime trackId to clipId x s
                 = updateTotalDuration s)) /\
  (noClip clipId s ->
   removeClipFromTrack trackId clipId s = updateTotalDuration s /\
   (forall i, reorderClipInTrack trackId clipId i s = updateTotalDuration s) /\
   (forall a b, trimClip trackId clipId a b s = updateTotalDuration s) /\
   (forall x u1 u2, splitClip trackId clipId x u1 u2 s = updateTotalDuration s) /\
   (forall to i, moveClipToTrack trackId to clipId i s = updateTotalDuration s) /\
   (forall to x, updateClipStartTime trackId to clipId x s
                 = updateTotalDuration s)).
Proof.
  split.
  - intros H. pose proof (findClip_missing_track s trackId clipId H) as Hfind.
    apply other_tracks in H. conjs; intros.
    + unfold removeTrack. rewrite filter_unchanged; [apply set_tracks_same|].
      eapply Forall_impl; [|exact H]. cbn beta. now intros t ->.
    + unfold addClipToTrack. same_tracks s H. now intros t ->.
    + unfold removeClipFromTrack. same_tracks s H. now intros t ->.
    + unfold reorderClipInTrack. same_tracks s H. now intros t ->.
    + unfold trimClip. same_tracks s H. now intros t ->.
    + unfold splitClip. same_tracks s H. now intros t ->.
    + unfold moveClipToTrack. now rewrite Hfind.
    + unfold updateClipStartTime. now rewrite Hfind.
  - intros H. pose proof (findClip_missing_clip s trackId clipId H) as Hfind.
    unfold noClip in H. conjs; intros.
    + unfold removeClipFromTrack. same_tracks s H. intros t Ht.
      destruct (track_id t =? trackId)%string; [|reflexivity].
      rewrite filter_unchanged; [apply with_clips_same|].
      eapply Forall_impl; [|exact Ht]. cbn beta.
      intros c Hc. apply String.eqb_neq in Hc. now rewrite Hc.
    + unfold reorderClipInTrack. same_tracks s H. intros t Ht.
      destruct (negb (track_id t =? trackId)%string); [reflexivity|].
      rewrite findIndex_none; [reflexivity|]. now apply other_clips.
    + unfold trimClip. same_tracks s H. intros t Ht.
      destruct (negb (track_id t =? trackId)%string); [reflexivity|].
      rewrite map_unchanged; [apply with_clips_same|].
      eapply Forall_impl; [|exact Ht]. cbn beta.
      intros c Hc. apply String.eqb_neq in Hc. now rewrite Hc.
    + unfold splitClip. same_tracks s H. intros t Ht.
      destruct (negb (track_id t =? trackId)%string); [reflexivity|].
      rewrite findIndex_none; [reflexivity|]. now apply other_clips.
    + unfold moveClipToTrack. now rewrite Hfind.
    + unfold updateClipStartTime. now rewrite Hfind.
Qed.

(** ** Start times *)

Lemma updateClipStartTime_replaces (s : TimelineStore)
    (trackId clipId : string) (x : Q) (tb ta : list TimelineTrack)
    (t : TimelineTrack) (before after : list TimelineClip) (c : TimelineClip) :
  tracks s = tb ++ t :: ta -> track_id t = trackId ->
  Forall (fun t' => track_id t' <> trackId) tb ->
  clips t = before ++ c :: after -> clip_id c = clipId ->
  Forall (fun c' => clip_id c' <> clipId) before ->
  Forall (fun c' => clip_id c' <> clipId) after ->
  nth_error (tracks (updateClipStartTime trackId trackId clipId x s)) (length tb)
  = Some (with_clips t (before ++ updatedClip c x :: after)).
Proof.
  intros Hs Hid Htb Hcs Hcid Hbefore Hafter.
  apply other_tracks in Htb. apply other_clips in Hbefore, Hafter.
  assert (Hfind : findClip trackId clipId s = Some c).
  { unfold findClip. rewrite Hs, (find_first _ tb ta t); auto.
    - rewrite Hcs. apply find_first; auto. rewrite Hcid. apply String.eqb_refl.
    - rewrite Hid. apply String.eqb_refl. }
  unfold updateClipStartTime. rewrite Hfind, tracks_updateTotalDuration.
  cbn [tracks set_tracks]. rewrite Hs, nth_error_map, nth_error_middle.
  cbn [option_map]. rewrite Hid, !String.eqb_refl. cbn [andb].
  rewrite Hcs, map_app. cbn [map]. rewrite Hcid, String.eqb_refl.
  rewrite !map_unchanged; [reflexivity| |].
  - eapply Forall_impl; [|exact Hafter]. cbn beta. now intros y ->.
  - eapply Forall_impl; [|exact Hbefore]. cbn beta. now intros y ->.
Qed.

Lemma updateClipStartTime_appends (s : TimelineStore)
    (fromTrackId toTrackId clipId : string) (x : Q) (c : TimelineClip)
    (k : nat) (tt : TimelineTrack) :
  findClip fromTrackId clipId s = Some c ->
  nth_error (tracks s) k = Some tt -> track_id tt = toTrackId ->
  fromTrackId <> toTrackId ->
  nth_error (tracks (updateClipStartTime fromTrackId toTrackId clipId x s)) k
  = Some (with_clips tt (clips tt ++ [updatedClip c x])).
Proof.
  intros Hfind Hk Ht Hne.
  assert (Hft : (fromTrackId =? toTrackId)%string = false)
    by now apply String.eqb_neq.
  unfold updateClipStartTime. rewrite Hfind, tracks_updateTotalDuration.
  cbn [tracks set_tracks]. rewrite Hft, nth_error_map, Hk. cbn [option_map].
  assert (E : (track_id tt =? fromTrackId)%string = false).
  { apply String.eqb_neq. congruence. }
  rewrite E, Ht, String.eqb_refl. reflexivity.
Qed.

Lemma perform_startsNonneg (a : Action) (s : TimelineStore) :
  headTrim a = false -> keepsStarts a ->
  startsNonneg s -> startsNonneg (perform a s).
Proof.
  intros Hh Hk Hs c H. apply perform_clips in H.
  destruct H as [H|H]; [now apply Hs|].
  destruct H as [trackId clipData uuid
                |trackId clipId a b c Hc Hid
                |trackId clipId x uuid1 uuid2 c Hc
                |trackId clipId x uuid1 uuid2 c Hc
                |f t cid x c Hc]; simpl in Hh, Hk |- *.
  - apply newClipStart_nonneg.
  - destruct a as [x|]; [discriminate|now apply Hs].
  - now apply Hs.
  - specialize (Hs c Hc). lra.
  - exact Hk.
Qed.

Lemma run_startsNonneg (l : list Action) (s : TimelineStore) :
  Forall (fun a => headTrim a = false /\ keepsStarts a) l ->
  startsNonneg s -> startsNonneg (run l s).
Proof.
  intros Hl. revert s. induction Hl as [|a l [Hh Hk] _ IH]; intros s Hs;
    [exact Hs|].
  cbn [run fold_left]. apply IH. now apply perform_startsNonneg.
Qed.

(** C7, as the code has it.  The store never clamps [startTime]:
    [addClipToTrack] places the new clip at a [startTime >= 0];
    [updateClipStartTime] puts the clip it moves, in place within a track
    or appended to another track, at exactly [newStartTime]; and every
    [startTime] stays [>= 0] under every action other than a [trimClip]
    with a [trimStart] argument, and along every run of such actions from
    the initial state, when [updateClipStartTime] is given
    [newStartTime >= 0] and [splitClip] is given [splitTime >= 0]. *)
Theorem startTime_nonneg_kept :
  (forall trackId clipData uuid s c,
      produced s (AddClipToTrack trackId clipData uuid) c -> 0 <= startTime c) /\
  (forall s trackId clipId newStartTime tb ta t before after c,
      tracks s = tb ++ t :: ta -> track_id t = trackId ->
      Forall (fun t' => track_id t' <> trackId) tb ->
      clips t = before ++ c :: after -> clip_id c = clipId ->
      Forall (fun c' => clip_id c' <> clipId) before ->
      Forall (fun c' => clip_id c' <> clipId) after ->
      exists c',
        nth_error (tracks (updateClipStartTime trackId trackId clipId
                                               newStartTime s)) (length tb)
        = Some (with_clips t (before ++ c' :: after)) /\
        clip_id c' = clipId /\ startTime c' = newStartTime) /\
  (forall s fromTrackId toTrackId clipId newStartTime c k tt,
      findClip fromTrackId clipId s = Some c ->
      nth_error (tracks s) k = Some tt -> track_id tt = toTrackId ->
      fromTrackId <> toTrackId ->
      exists c',
        nth_error (tracks (updateClipStartTime fromTrackId toTrackId clipId
                                               newStartTime s)) k
        = Some (with_clips tt (clips tt ++ [c'])) /\
        clip_id c' = clip_id c /\ startTime c' = newStartTime) /\
  (forall a s,
      headTrim a = false -> keepsStarts a ->
      startsNonneg s -> startsNonneg (perform a s)) /\
  (forall l,
      Forall (fun a => headTrim a = false /\ keepsStarts a) l ->
      startsNonneg (run l initialState)).
Proof.
  split; [|split; [|split; [|split]]].
  - intros trackId clipData uuid s c H. inversion H; subst. simpl.
    apply newClipStart_nonneg.
  - intros s trackId clipId x tb ta t before after c Hs Hid Htb Hcs Hcid Hb Ha.
    exists (updatedClip c x).
    split; [now apply (updateClipStartTime_replaces s trackId clipId x tb ta)|].
    now split.
  - intros s f to cid x c k tt Hfind Hk Ht Hne.
    exists (updatedClip c x).
    split; [now apply updateClipStartTime_appends|]. now split.
  - exact perform_startsNonneg.
  - intros l Hl. apply run_startsNonneg; [exact Hl|].
    intros c (t & [] & _).
Qed.

Lemma startTime_nonneg_kept_witness :
  exists c',
    nth_error (tracks (updateClipStartTime "A" "A" "c1" 7 sampleState))
              (length (@nil TimelineTrack))
    = Some (with_clips sampleTrack ([] ++ c' :: [])) /\
    clip_id c' = "c1"%string /\ startTime c' = 7.
Proof.
  exact (proj1 (proj2 startTime_nonneg_kept) sampleState "A"%string
           "c1"%string 7 [] [] sampleTrack [] [] sampleClip
           eq_refl eq_refl (Forall_nil _) eq_refl eq_refl
           (Forall_nil _) (Forall_nil _)).
Defined.

(** C7, as stated, fails.  [updateClipStartTime] stores a negative
    [newStartTime] as it is.  A head trim back to 0 of a clip that was
    trimmed to 5 and then moved to 0 shifts it to -5.  The handlers of the
    clip component reach that state by themselves: on a ruler of 600
    pixels showing 60 seconds, the start handle dragged 50 pixels to the
    right, the clip body dragged 50 pixels to the left, and the start
    handle dragged 50 pixels back leave the clip at -5. *)
Lemma startTime_negative :
  (exists c,
      clipAt (run [UpdateClipStartTime "A" "A" "c1" (-5)] sampleState) 0 0 c /\
      startTime c = -5 /\ ~ 0 <= startTime c) /\
  (exists c,
      clipAt (run [TrimClip "A" "c1" (Some 5) None;
                   UpdateClipStartTime "A" "A" "c1" 0;
                   TrimClip "A" "c1" (Some 0) None] sampleState) 0 0 c /\
      startTime c == -5 /\ ~ 0 <= startTime c) /\
  (exists s1 t1 c1 s2 c2 s3 c3,
      s1 = trimHandleMove handleStart sampleClip "A" (viewportDuration sampleState)
             (Some 600) 50 sampleState /\
      nth_error (tracks s1) 0 = Some t1 /\ nth_error (clips t1) 0 = Some c1 /\
      s2 = clipDragMove c1 t1 (totalDuration s1) (viewportDuration s1)
             (Some 600) (-50) s1 /\
      clipAt s2 0 0 c2 /\
      s3 = trimHandleMove handleStart c2 "A" (viewportDuration s2)
             (Some 600) (-50) s2 /\
      clipAt s3 0 0 c3 /\
      startTime c1 == 5 /\ startTime c2 == 0 /\
      startTime c3 == -5 /\ ~ 0 <= startTime c3).
Proof.
  split; [|split].
  - eexists. split; [eexists; split; reflexivity|].
    split; vm_compute; congruence.
  - eexists. split; [eexists; split; reflexivity|].
    split; vm_compute; congruence.
  - do 7 eexists.
    split; [reflexivity|]. split; [reflexivity|]. split; [reflexivity|].
    split; [reflexivity|]. split; [eexists; split; reflexivity|].
    split; [reflexivity|]. split; [eexists; split; reflexivity|].
    repeat split; vm_compute; congruence.
Qed.

(** * Further properties of the store and of its callers *)

(** ** Reordering and moving clips *)

Lemma splice_insert {A : Type} (l : list A) (i : Z) (x : A) :
  fst (splice l i 0 [x])
  = firstn (splice_start l i) l ++ x :: skipn (splice_start l i) l.
Proof.
  unfold splice. cbn [fst].
  replace (Z.to_nat (Z.min (Z.max 0 0)
                           (Z.of_nat (length l) - Z.of_nat (splice_start l i))))
    with 0%nat by lia.
  now rewrite Nat.add_0_r.
Qed.

Lemma splice_start_le {A : Type} (l : list A) (i : Z) :
  (splice_start l i <= length l)%nat.
Proof. unfold splice_start. destruct (Z.ltb_spec i 0); lia. Qed.

Lemma splice_start_nonneg {A : Type} (l : list A) (i : Z) :
  (0 <= i)%Z ->
  splice_start l i = Z.to_nat (Z.min i (Z.of_nat (length l))).
Proof.
  intros Hi. unfold splice_start.
  destruct (Z.ltb_spec i 0); [lia|reflexivity].
Qed.

Lemma splice_append {A : Type} (l : list A) (x : A) :
  fst (splice l (Z.of_nat (length l)) 0 [x]) = l ++ [x].
Proof.
  rewrite splice_insert, splice_start_nonneg by lia.
  replace (Z.to_nat (Z.min (Z.of_nat (length l)) (Z.of_nat (length l))))
    with (length l) by lia.
  now rewrite firstn_all, skipn_all.
Qed.

Lemma insert_permutation {A : Type} (l : list A) (n : nat) (x : A) :
  Permutation (x :: l) (firstn n l ++ x :: skipn n l).
Proof.
  rewrite <- (firstn_skipn n l) at 1. apply Permutation_middle.
Qed.

Lemma nth_error_insert {A : Type} (l : list A) (n : nat) (x : A) :
  (n <= length l)%nat -> nth_error (firstn n l ++ x :: skipn n l) n = Some x.
Proof.
  intros Hn.
  rewrite nth_error_app2; rewrite length_firstn, Nat.min_l by exact Hn;
    [|lia].
  now rewrite Nat.sub_diag.
Qed.

(** The clips of a track after [reorderClipInTrack], when the track has the
    id and holds the clip: the clip is taken out and put back at the
    clamped index. *)
Lemma reorderClipInTrack_track (s : TimelineStore) (trackId clipId : string)
    (newIndex : Z) (i : nat) (t : TimelineTrack)
    (before after : list TimelineClip) (c : TimelineClip) :
  nth_error (tracks s) i = Some t -> track_id t = trackId ->
  clips t = before ++ c :: after -> clip_id c = clipId ->
  Forall (fun c' => clip_id c' <> clipId) before ->
  nth_error (tracks (reorderClipInTrack trackId clipId newIndex s)) i
  = Some (with_clips t
            (firstn (splice_start (before ++ after) newIndex) (before ++ after)
             ++ c :: skipn (splice_start (before ++ after) newIndex)
                           (before ++ after))).
Proof.
  intros Ht <- Hcs <- Hbefore.
  unfold reorderClipInTrack. rewrite tracks_updateTotalDuration.
  cbn [tracks set_tracks]. rewrite nth_error_map, Ht. cbn [option_map].
  rewrite String.eqb_refl. cbn [negb].
  assert (Hidx : findIndex (fun clip => (clip_id clip =? clip_id c)%string) (clips t)
                 = Z.of_nat (length before)).
  { rewrite Hcs. apply findIndex_first.
    - now apply other_clips.
    - apply String.eqb_refl. }
  rewrite Hidx.
  destruct (Z.eqb_spec (Z.of_nat (length before)) (-1)) as [E|_]; [lia|].
  rewrite Hcs, splice_at. cbn [app]. now rewrite splice_insert.
Qed.

(** X2.  [reorderClipInTrack] only changes the order of clips: for any
    [newIndex], negative or beyond the end included, every track keeps its
    position, id, name and type, and its clips after the call are a
    permutation of its clips before. *)
Theorem reorderClipInTrack_permutation (s : TimelineStore)
    (trackId clipId : string) (newIndex : Z) :
  length (tracks (reorderClipInTrack trackId clipId newIndex s))
  = length (tracks s) /\
  forall i t,
    nth_error (tracks s) i = Some t ->
    exists t',
      nth_error (tracks (reorderClipInTrack trackId clipId newIndex s)) i
        = Some t' /\
      track_id t' = track_id t /\ track_name t' = track_name t /\
      track_type t' = track_type t /\
      Permutation (clips t) (clips t').
Proof.
  split.
  - unfold reorderClipInTrack. rewrite tracks_updateTotalDuration.
    cbn [tracks set_tracks]. apply length_map.
  - intros i t Ht.
    destruct (String.eqb_spec (track_id t) trackId) as [Hid|Hid].
    + destruct (Z.eq_dec
                  (findIndex (fun clip => (clip_id clip =? clipId)%string) (clips t))
                  (-1)) as [E|E].
      * exists t. split; [|now repeat split].
        unfold reorderClipInTrack. rewrite tracks_updateTotalDuration.
        cbn [tracks set_tracks]. rewrite nth_error_map, Ht. cbn [option_map].
        rewrite Hid, String.eqb_refl. cbn [negb]. now rewrite E.
      * apply findIndex_found in E.
        destruct E as (before & c & after & Hcs & Hbefore & Hc & _).
        apply String.eqb_eq in Hc.
        assert (Hb : Forall (fun c' => clip_id c' <> clipId) before).
        { eapply Forall_impl; [|exact Hbefore]. cbn beta.
          intros x Hx. now apply String.eqb_neq. }
        eexists. split.
        { eapply reorderClipInTrack_track; eassumption. }
        cbn [with_clips track_id track_name track_type clips].
        repeat split. rewrite Hcs.
        etransitivity; [symmetry; apply Permutation_middle|].
        apply insert_permutation.
    + exists t. split; [|now repeat split].
      unfold reorderClipInTrack. rewrite tracks_updateTotalDuration.
      cbn [tracks set_tracks]. rewrite nth_error_map, Ht. cbn [option_map].
      apply String.eqb_neq in Hid. now rewrite Hid.
Qed.

(** X3.  For a track with the id whose first clip with the clip id is [c],
    and [0 <= newIndex], [reorderClipInTrack] puts [c] at index [newIndex],
    or last when [newIndex] is beyond the end; with [newIndex] equal to the
    clip's own index the track stays as it is. *)
Theorem reorderClipInTrack_lands (s : TimelineStore) (trackId clipId : string)
    (newIndex : Z) (i : nat) (t : TimelineTrack)
    (before after : list TimelineClip) (c : TimelineClip) :
  nth_error (tracks s) i = Some t -> track_id t = trackId ->
  clips t = before ++ c :: after -> clip_id c = clipId ->
  Forall (fun c' => clip_id c' <> clipId) before ->
  (0 <= newIndex)%Z ->
  exists t',
    nth_error (tracks (reorderClipInTrack trackId clipId newIndex s)) i
      = Some t' /\
    length (clips t') = length (clips t) /\
    nth_error (clips t')
              (Z.to_nat (Z.min newIndex (Z.of_nat (length (clips t)) - 1)))
      = Some c /\
    (newIndex = Z.of_nat (length before) -> t' = t).
Proof.
  intros Ht Hid Hcs Hcid Hbefore Hidx.
  eexists. split; [eapply reorderClipInTrack_track; eassumption|].
  cbn [with_clips clips].
  assert (Hlen : length (clips t) = S (length (before ++ after))).
  { rewrite Hcs, !length_app. simpl. lia. }
  pose proof (splice_start_le (before ++ after) newIndex) as Hle.
  assert (Hs : splice_start (before ++ after) newIndex
               = Z.to_nat (Z.min newIndex (Z.of_nat (length (clips t)) - 1))).
  { rewrite splice_start_nonneg by exact Hidx. rewrite Hlen. f_equal. lia. }
  split; [|split].
  - rewrite length_app. cbn [length]. rewrite length_firstn, length_skipn. lia.
  - rewrite <- Hs. now apply nth_error_insert.
  - intros ->. rewrite splice_start_nonneg by lia.
    replace (Z.to_nat (Z.min (Z.of_nat (length before))
                             (Z.of_nat (length (before ++ after)))))
      with (length before) by (rewrite length_app; lia).
    rewrite firstn_app, firstn_all, Nat.sub_diag, firstn_0, app_nil_r.
    rewrite skipn_app, skipn_all, Nat.sub_diag, skipn_0. cbn [app].
    rewrite <- Hcs. apply with_clips_same.
Qed.

Lemma reorderClipInTrack_lands_witness :
  exists t',
    nth_error (tracks (reorderClipInTrack "A" "c1" 7
                         (addClipToTrack "A" (clipOfDuration 3) "c2" sampleState)))
              0 = Some t' /\
    length (clips t') = 2%nat /\
    nth_error (clips t') 1 = Some sampleClip /\
    (7%Z = 0%Z -> t' = with_clips sampleTrack
                          [sampleClip;
                           newClip (clipOfDuration 3) "c2" 10]).
Proof.
  refine (reorderClipInTrack_lands
            (addClipToTrack "A" (clipOfDuration 3) "c2" sampleState)
            "A" "c1" 7 0
            (with_clips sampleTrack
                        [sampleClip; newClip (clipOfDuration 3) "c2" 10])
            [] [newClip (clipOfDuration 3) "c2" 10] sampleClip
            eq_refl eq_refl eq_refl eq_refl (Forall_nil _) _).
  lia.
Defined.

(** X4.  [moveClipToTrack] with the same source and destination does not
    reinsert the clip: when the clip is found, the call does what
    [removeClipFromTrack] does, whatever [insertIndex] is. *)
Theorem moveClipToTrack_same_track (s : TimelineStore) (trackId clipId : string)
    (insertIndex : option Z) (c : TimelineClip) :
  findClip trackId clipId s = Some c ->
  moveClipToTrack trackId trackId clipId insertIndex s
  = removeClipFromTrack trackId clipId s.
Proof.
  intros Hfind. unfold moveClipToTrack, removeClipFromTrack. rewrite Hfind.
  f_equal. f_equal. apply map_ext. intros t.
  now destruct (track_id t =? trackId)%string.
Qed.

Lemma moveClipToTrack_same_track_witness :
  moveClipToTrack "A" "A" "c1" (Some 0%Z) sampleState
  = removeClipFromTrack "A" "c1" sampleState /\
  allClips (moveClipToTrack "A" "A" "c1" (Some 0%Z) sampleState) = [].
Proof.
  split.
  - exact (moveClipToTrack_same_track sampleState "A" "c1" (Some 0%Z)
             sampleClip eq_refl).
  - reflexivity.
Defined.

(** X5.  [moveClipToTrack] between two different tracks: every track with
    the source id loses the clips with the clip id, every track with the
    destination id receives the found clip, unchanged, at [insertIndex]
    (at the end when [insertIndex] is omitted), and the other tracks stay
    as they are. *)
Theorem moveClipToTrack_moves (s : TimelineStore)
    (fromTrackId toTrackId clipId : string) (insertIndex : option Z)
    (c : TimelineClip) (i k : nat) (tf tt : TimelineTrack) :
  findClip fromTrackId clipId s = Some c ->
  nth_error (tracks s) i = Some tf -> track_id tf = fromTrackId ->
  nth_error (tracks s) k = Some tt -> track_id tt = toTrackId ->
  fromTrackId <> toTrackId ->
  clip_id c = clipId /\
  nth_error (tracks (moveClipToTrack fromTrackId toTrackId clipId insertIndex s)) i
  = Some (with_clips tf
            (filter (fun clip => negb (clip_id clip =? clipId)%string) (clips tf))) /\
  (exists p,
      (p <= length (clips tt))%nat /\
      nth_error (tracks (moveClipToTrack fromTrackId toTrackId clipId
                                         insertIndex s)) k
      = Some (with_clips tt (firstn p (clips tt) ++ c :: skipn p (clips tt))) /\
      (insertIndex = None -> p = length (clips tt)) /\
      (forall n, insertIndex = Some n ->
                 (0 <= n <= Z.of_nat (length (clips tt)))%Z -> p = Z.to_nat n)) /\
  (forall j t,
      nth_error (tracks s) j = Some t ->
      track_id t <> fromTrackId -> track_id t <> toTrackId ->
      nth_error (tracks (moveClipToTrack fromTrackId toTrackId clipId
                                         insertIndex s)) j = Some t).
Proof.
  intros Hfind Hi Hf Hk Ht Hne.
  assert (Hid : clip_id c = clipId).
  { unfold findClip in Hfind.
    destruct (find _ (tracks s)); [|discriminate].
    apply find_some in Hfind. now apply String.eqb_eq. }
  unfold moveClipToTrack. rewrite Hfind, tracks_updateTotalDuration.
  cbn [tracks set_tracks].
  split; [exact Hid|]. split; [|split].
  - rewrite nth_error_map, Hi. cbn [option_map].
    now rewrite Hf, String.eqb_refl.
  - exists (splice_start (clips tt)
              match insertIndex with
              | Some n => n
              | None => Z.of_nat (length (clips tt))
              end).
    split; [apply splice_start_le|]. split; [|split].
    + rewrite nth_error_map, Hk. cbn [option_map].
      assert (E : (track_id tt =? fromTrackId)%string = false).
      { apply String.eqb_neq. congruence. }
      rewrite E, Ht, String.eqb_refl. now rewrite splice_insert.
    + intros ->. rewrite splice_start_nonneg by lia. lia.
    + intros n -> Hn. rewrite splice_start_nonneg by lia. lia.
  - intros j t Hj H1 H2. rewrite nth_error_map, Hj. cbn [option_map].
    apply String.eqb_neq in H1, H2. now rewrite H1, H2.
Qed.

(** Sample data: [sampleState] with a second, empty track ["B"]. *)
Lemma moveClipToTrack_moves_witness :
  let s := snd (addTrack audio "B" sampleState) in
  clip_id sampleClip = "c1"%string /\
  nth_error (tracks (moveClipToTrack "A" "B" "c1" None s)) 0
  = Some (with_clips sampleTrack []) /\
  (exists p,
      (p <= 0)%nat /\
      nth_error (tracks (moveClipToTrack "A" "B" "c1" None s)) 1
      = Some (with_clips (mkTrack "B" "Audio Track" audio [])
                         (firstn p [] ++ sampleClip :: skipn p [])) /\
      (@None Z = None -> p = 0%nat) /\
      (forall n, @None Z = Some n -> (0 <= n <= 0)%Z -> p = Z.to_nat n)) /\
  (forall j t,
      nth_error (tracks s) j = Some t ->
      track_id t <> "A"%string -> track_id t <> "B"%string ->
      nth_error (tracks (moveClipToTrack "A" "B" "c1" None s)) j = Some t).
Proof.
  refine (moveClipToTrack_moves (snd (addTrack audio "B" sampleState))
            "A" "B" "c1" None sampleClip 0 1 sampleTrack
            (mkTrack "B" "Audio Track" audio [])
            eq_refl eq_refl eq_refl eq_refl eq_refl _).
  discriminate.
Defined.

(** X6.  [updateClipStartTime] within one track: for the first track with
    the id, holding exactly one clip with the clip id, the call replaces
    that clip, in place, by a clip that differs from it in [startTime]
    only, and [startTime] is [newStartTime] as given. *)
Theorem updateClipStartTime_in_place (s : TimelineStore)
    (trackId clipId : string) (newStartTime : Q)
    (tb ta : list TimelineTrack) (t : TimelineTrack)
    (before after : list TimelineClip) (c : TimelineClip) :
  tracks s = tb ++ t :: ta -> track_id t = trackId ->
  Forall (fun t' => track_id t' <> trackId) tb ->
  clips t = before ++ c :: after -> clip_id c = clipId ->
  Forall (fun c' => clip_id c' <> clipId) before ->
  Forall (fun c' => clip_id c' <> clipId) after ->
  exists c',
    nth_error (tracks (updateClipStartTime trackId trackId clipId newStartTime s))
              (length tb)
    = Some (with_clips t (before ++ c' :: after)) /\
    startTime c' = newStartTime /\
    clip_id c' = clip_id c /\ mediaId c' = mediaId c /\
    clip_name c' = clip_name c /\ duration c' = duration c /\
    trimStart c' = trimStart c /\ trimEnd c' = trimEnd c /\
    originalDuration c' = originalDuration c.
Proof.
  intros Hs Hid Htb Hcs Hcid Hbefore Hafter.
  apply other_tracks in Htb. apply other_clips in Hbefore, Hafter.
  assert (Hfind : findClip trackId clipId s = Some c).
  { unfold findClip. rewrite Hs, (find_first _ tb ta t); auto.
    - rewrite Hcs. apply find_first; auto. rewrite Hcid. apply String.eqb_refl.
    - rewrite Hid. apply String.eqb_refl. }
  exists (updatedClip c newStartTime).
  split; [|now repeat split].
  unfold updateClipStartTime. rewrite Hfind, tracks_updateTotalDuration.
  cbn [tracks set_tracks]. rewrite Hs, nth_error_map, nth_error_middle.
  cbn [option_map]. rewrite Hid, !String.eqb_refl. cbn [andb].
  rewrite Hcs, map_app. cbn [map]. rewrite Hcid, String.eqb_refl.
  rewrite !map_unchanged; [reflexivity| |].
  - eapply Forall_impl; [|exact Hafter]. cbn beta. now intros x ->.
  - eapply Forall_impl; [|exact Hbefore]. cbn beta. now intros x ->.
Qed.

Lemma updateClipStartTime_in_place_witness :
  exists c',
    nth_error (tracks (updateClipStartTime "A" "A" "c1" 7 sampleState)) 0
    = Some (with_clips sampleTrack ([] ++ c' :: [])) /\
    startTime c' = 7 /\
    clip_id c' = "c1"%string /\ mediaId c' = "m"%string /\
    clip_name c' = "clip"%string /\ duration c' = 10 /\
    trimStart c' = Some 0 /\ trimEnd c' = Some 10 /\
    originalDuration c' = 10.
Proof.
  exact (updateClipStartTime_in_place sampleState "A" "c1" 7 [] [] sampleTrack
           [] [] sampleClip eq_refl eq_refl (Forall_nil _) eq_refl eq_refl
           (Forall_nil _) (Forall_nil _)).
Defined.

(** X7.  [updateClipStartTime] between two different tracks: every track
    with the source id loses the clips with the clip id, every track with
    the destination id gets the found clip appended with [startTime] set to
    [newStartTime], and the other tracks stay as they are. *)
Theorem updateClipStartTime_across (s : TimelineStore)
    (fromTrackId toTrackId clipId : string) (newStartTime : Q)
    (c : TimelineClip) (i k : nat) (tf tt : TimelineTrack) :
  findClip fromTrackId clipId s = Some c ->
  nth_error (tracks s) i = Some tf -> track_id tf = fromTrackId ->
  nth_error (tracks s) k = Some tt -> track_id tt = toTrackId ->
  fromTrackId <> toTrackId ->
  nth_error (tracks (updateClipStartTime fromTrackId toTrackId clipId
                                         newStartTime s)) i
  = Some (with_clips tf
            (filter (fun clip => negb (clip_id clip =? clipId)%string) (clips tf))) /\
  nth_error (tracks (updateClipStartTime fromTrackId toTrackId clipId
                                         newStartTime s)) k
  = Some (with_clips tt (clips tt ++ [updatedClip c newStartTime])) /\
  startTime (updatedClip c newStartTime) = newStartTime /\
  duration (updatedClip c newStartTime) = duration c /\
  (forall j t,
      nth_error (tracks s) j = Some t ->
      track_id t <> fromTrackId -> track_id t <> toTrackId ->
      nth_error (tracks (updateClipStartTime fromTrackId toTrackId clipId
                                             newStartTime s)) j = Some t).
Proof.
  intros Hfind Hi Hf Hk Ht Hne.
  assert (Hft : (fromTrackId =? toTrackId)%string = false)
    by now apply String.eqb_neq.
  unfold updateClipStartTime. rewrite Hfind, tracks_updateTotalDuration.
  cbn [tracks set_tracks]. rewrite Hft.
  split; [|split; [|split; [|split]]]; try reflexivity.
  - rewrite nth_error_map, Hi. cbn [option_map].
    rewrite Hf, String.eqb_refl. cbn [andb]. reflexivity.
  - rewrite nth_error_map, Hk. cbn [option_map].
    assert (E : (track_id tt =? fromTrackId)%string = false).
    { apply String.eqb_neq. congruence. }
    rewrite E, Ht, String.eqb_refl. reflexivity.
  - intros j t Hj H1 H2. rewrite nth_error_map, Hj. cbn [option_map].
    apply String.eqb_neq in H1, H2. now rewrite H1, H2.
Qed.

Lemma updateClipStartTime_across_witness :
  let s := snd (addTrack audio "B" sampleState) in
  nth_error (tracks (updateClipStartTime "A" "B" "c1" 7 s)) 0
  = Some (with_clips sampleTrack []) /\
  nth_error (tracks (updateClipStartTime "A" "B" "c1" 7 s)) 1
  = Some (with_clips (mkTrack "B" "Audio Track" audio [])
                     [updatedClip sampleClip 7]) /\
  startTime (updatedClip sampleClip 7) = 7 /\
  duration (updatedClip sampleClip 7) = 10 /\
  (forall j t,
      nth_error (tracks s) j = Some t ->
      track_id t <> "A"%string -> track_id t <> "B"%string ->
      nth_error (tracks (updateClipStartTime "A" "B" "c1" 7 s)) j = Some t).
Proof.
  refine (updateClipStartTime_across (snd (addTrack audio "B" sampleState))
            "A" "B" "c1" 7 sampleClip 0 1 sampleTrack
            (mkTrack "B" "Audio Track" audio [])
            eq_refl eq_refl eq_refl eq_refl eq_refl _).
  discriminate.
Defined.

(** ** Trimming by dragging a handle *)

Lemma trimClip_track (s : TimelineStore) (trackId clipId : string)
    (a b : option Q) (i : nat) (t : TimelineTrack) :
  nth_error (tracks s) i = Some t -> track_id t = trackId ->
  nth_error (tracks (trimClip trackId clipId a b s)) i
  = Some (with_clips t
            (map (fun clip =>
                    if negb (clip_id clip =? clipId)%string then clip
                    else trimmed clip a b)
                 (clips t))).
Proof.
  intros Ht <-. unfold trimClip. rewrite tracks_updateTotalDuration.
  cbn [tracks set_tracks]. rewrite nth_error_map, Ht. cbn [option_map].
  now rewrite String.eqb_refl.
Qed.

(** X8.  The last trim decides the trim range.  A [trimClip] call given
    both a [trimStart] and a [trimEnd] leaves the clip with the same
    [trimStart], [trimEnd] and [duration] (and the same id, media, name and
    [originalDuration]) whatever [trimClip] call on that clip came before
    it: only [startTime] carries the earlier shift.  The trim handles pass
    both arguments on every pointer move, so during a drag the trim range is
    the one computed from the last pointer position. *)
Theorem trimClip_last_trim_decides (s : TimelineStore) (trackId clipId : string)
    (i j : nat) (t : TimelineTrack) (c : TimelineClip) :
  nth_error (tracks s) i = Some t -> track_id t = trackId ->
  nth_error (clips t) j = Some c -> clip_id c = clipId ->
  (forall a b x y, exists c1 c2,
      clipAt (trimClip trackId clipId (Some x) (Some y) s) i j c1 /\
      clipAt (trimClip trackId clipId (Some x) (Some y)
                (trimClip trackId clipId a b s)) i j c2 /\
      sameTrim c2 c1) /\
  (forall position clip viewportDuration containerWidth deltaX1 deltaX2,
      clip_id clip = clipId ->
      exists c1 c2,
        clipAt (trimHandleMove position clip trackId viewportDuration
                  (Some containerWidth) deltaX2 s) i j c1 /\
        clipAt (trimHandleMove position clip trackId viewportDuration
                  (Some containerWidth) deltaX2
                  (trimHandleMove position clip trackId viewportDuration
                     (Some containerWidth) deltaX1 s)) i j c2 /\
        sameTrim c2 c1).
Proof.
  intros Ht Hid Hc Hcid.
  assert (Hstore : forall a b x y, exists c1 c2,
             clipAt (trimClip trackId clipId (Some x) (Some y) s) i j c1 /\
             clipAt (trimClip trackId clipId (Some x) (Some y)
                       (trimClip trackId clipId a b s)) i j c2 /\
             sameTrim c2 c1).
  { intros a b x y.
    exists (trimmed c (Some x) (Some y)),
      (trimmed (trimmed c a b) (Some x) (Some y)).
    split; [now apply (trimClip_clipAt s trackId clipId _ _ i j t c)|].
    split.
    - pose proof (trimClip_track s trackId clipId a b i t Ht Hid) as Ht1.
      eapply trimClip_clipAt; [exact Ht1|exact Hid| |exact Hcid].
      cbn [with_clips clips]. rewrite nth_error_map, Hc. cbn [option_map].
      rewrite Hcid, String.eqb_refl. reflexivity.
    - unfold sameTrim, trimmed.
      cbn [clip_id mediaId clip_name duration trimStart trimEnd originalDuration
           nullish].
      repeat split; reflexivity. }
  split; [exact Hstore|].
  intros position clip vd w dx1 dx2 Hclip.
  unfold trimHandleMove, trimHandleArgs. cbv zeta. rewrite Hclip.
  destruct position; apply Hstore.
Qed.

Lemma trimClip_last_trim_decides_witness :
  exists c1 c2,
    clipAt (trimHandleMove handleStart sampleClip "A" 60 (Some 600) 40
              sampleState) 0 0 c1 /\
    clipAt (trimHandleMove handleStart sampleClip "A" 60 (Some 600) 40
              (trimHandleMove handleStart sampleClip "A" 60 (Some 600) 70
                 sampleState)) 0 0 c2 /\
    sameTrim c2 c1.
Proof.
  exact (proj2 (trimClip_last_trim_decides sampleState "A" "c1" 0 0
                  sampleTrack sampleClip eq_refl eq_refl eq_refl eq_refl)
           handleStart sampleClip 60 600 70 40 eq_refl).
Defined.

Lemma orElse_cases (x d : Q) :
  (x == 0 /\ orElse x d = d) \/ (~ x == 0 /\ orElse x d = x).
Proof.
  unfold orElse. destruct (Qeq_bool x 0) eqn:E.
  - left. split; [now apply Qeq_bool_iff|reflexivity].
  - right. split; [now apply Qeq_bool_neq|reflexivity].
Qed.

(** Names every [orElse] with its two cases. *)
Ltac orElse_cases :=
  repeat match goal with
         | |- context [orElse ?x ?d] =>
             let v := fresh "v" in
             let Hv := fresh "Hv" in
             destruct (orElse_cases x d) as [[? Hv]|[? Hv]];
             rewrite Hv in *; clear Hv
         end.

(** X9.  Every pointer move of a start handle drag leaves the clip with a
    clamped trim range.  [clip] is the clip as it was at the press, with
    [0 <= trimStart], [trimStart + 0.1 <= trimEnd <= originalDuration] and
    [duration == trimEnd - trimStart]; [c] is that clip as the store holds
    it at the move.  After the [trimClip] call the handler makes, the clip
    of the store has such a range again, and its [trimEnd] is the one the
    clip had at the press. *)
Theorem trimHandle_start_keeps_range (s : TimelineStore) (trackId : string)
    (viewportDuration containerWidth deltaX : Q) (i j : nat)
    (t : TimelineTrack) (c clip : TimelineClip) :
  nth_error (tracks s) i = Some t -> track_id t = trackId ->
  nth_error (clips t) j = Some c ->
  clip_id c = clip_id clip -> originalDuration c = originalDuration clip ->
  trimClamped clip -> 0 < containerWidth ->
  exists c',
    clipAt (trimHandleMove handleStart clip trackId viewportDuration
              (Some containerWidth) deltaX s) i j c' /\
    trimClamped c' /\
    (trimEnd c' ?? originalDuration c') == (trimEnd clip ?? originalDuration clip).
Proof.
  intros Ht Hid Hc Hcid Hod (ts & te & Hts & Hte & H0 & Hlen & Hle & Hdur) Hw.
  unfold trimHandleMove, trimHandleArgs. cbv zeta. rewrite Hts, Hte.
  cbn [orElseOpt].
  eexists. split; [eapply trimClip_clipAt; eauto|].
  unfold trimClamped, trimmed.
  cbn [trimStart trimEnd originalDuration duration startTime nullish].
  rewrite Hod.
  set (timeDelta := deltaX * (viewportDuration / containerWidth)).
  clearbody timeDelta.
  split; [do 2 eexists; split; [reflexivity|]; split; [reflexivity|]|];
    orElse_cases; conjs; minmax.
Qed.

Lemma trimHandle_start_keeps_range_witness :
  exists c',
    clipAt (trimHandleMove handleStart sampleClip "A" 60 (Some 600) 50
              sampleState) 0 0 c' /\
    trimClamped c' /\
    (trimEnd c' ?? originalDuration c') == 10.
Proof.
  refine (trimHandle_start_keeps_range sampleState "A" 60 600 50 0 0
            sampleTrack sampleClip sampleClip eq_refl eq_refl eq_refl
            eq_refl eq_refl _ _).
  - exists 0, 10. conjs; try reflexivity; cbn; lra.
  - lra.
Defined.

(** X10.  Every pointer move of an end handle drag leaves the clip with a
    clamped trim range as well, with the [trimStart] the clip had at the
    press; and as long as the store's clip has that [trimStart], the move
    leaves [startTime] as it was: the tail trim does not move the clip. *)
Theorem trimHandle_end_keeps_range (s : TimelineStore) (trackId : string)
    (viewportDuration containerWidth deltaX : Q) (i j : nat)
    (t : TimelineTrack) (c clip : TimelineClip) :
  nth_error (tracks s) i = Some t -> track_id t = trackId ->
  nth_error (clips t) j = Some c ->
  clip_id c = clip_id clip -> originalDuration c = originalDuration clip ->
  trimClamped clip -> 0 < containerWidth ->
  exists c',
    clipAt (trimHandleMove handleEnd clip trackId viewportDuration
              (Some containerWidth) deltaX s) i j c' /\
    trimClamped c' /\
    (trimStart c' ?? 0) == (trimStart clip ?? 0) /\
    (trimStart c = trimStart clip -> startTime c' == startTime c).
Proof.
  intros Ht Hid Hc Hcid Hod (ts & te & Hts & Hte & H0 & Hlen & Hle & Hdur) Hw.
  unfold trimHandleMove, trimHandleArgs. cbv zeta. rewrite Hts, Hte.
  cbn [orElseOpt].
  eexists. split; [eapply trimClip_clipAt; eauto|].
  unfold trimClamped, trimmed.
  cbn [trimStart trimEnd originalDuration duration startTime nullish].
  rewrite Hod.
  set (timeDelta := deltaX * (viewportDuration / containerWidth)).
  clearbody timeDelta.
  split; [do 2 eexists; split; [reflexivity|]; split; [reflexivity|]|];
    [|split; [|intros ->; cbn [nullish]]];
    orElse_cases; conjs; minmax.
Qed.

Lemma trimHandle_end_keeps_range_witness :
  exists c',
    clipAt (trimHandleMove handleEnd sampleClip "A" 60 (Some 600) (-50)
              sampleState) 0 0 c' /\
    trimClamped c' /\
    (trimStart c' ?? 0) == 0 /\
    (Some 0 = Some 0 -> startTime c' == 0).
Proof.
  refine (trimHandle_end_keeps_range sampleState "A" 60 600 (-50) 0 0
            sampleTrack sampleClip sampleClip eq_refl eq_refl eq_refl
            eq_refl eq_refl _ _).
  - exists 0, 10. conjs; try reflexivity; cbn; lra.
  - lra.
Defined.

(** ** Dragging and dropping clips *)



(** ** Playhead and playback *)

(** X12.  Right after [setPlayheadPosition] the playhead has at least 30
    seconds of timeline ahead of it, and the call never shortens the
    timeline. *)
Theorem setPlayheadPosition_headroom (position : Q) (s : TimelineStore) :
  playheadPosition (setPlayheadPosition position s) + 30
  <= totalDuration (setPlayheadPosition position s) /\
  totalDuration s <= totalDuration (setPlayheadPosition position s).
Proof.
  unfold setPlayheadPosition. cbv zeta.
  destruct (Qlt_le_dec (totalDuration s - 30) (Qmax 0 position)) as [Hlt|Hle];
    cbn [playheadPosition totalDuration set_totalDuration set_playheadPosition];
    split; minmax.
Qed.

Lemma Qdiv_60_bounds (z : Q) :
  (1#10) <= z -> z <= 10 -> 6 <= 60 / z /\ 60 / z <= 600.
Proof.
  intros Hl Hu. split.
  - apply Qle_shift_div_l; lra.
  - apply Qle_shift_div_r; lra.
Qed.

Lemma setZoomLevel_bounds (level : Q) (s : TimelineStore) :
  (1#10) <= zoomLevel (setZoomLevel level s) /\
  zoomLevel (setZoomLevel level s) <= 10 /\
  6 <= viewportDuration (setZoomLevel level s) /\
  viewportDuration (setZoomLevel level s) <= 600.
Proof.
  unfold setZoomLevel. cbv zeta.
  cbn [zoomLevel viewportDuration set_scrollPosition set_viewportDuration
       set_zoomLevel].
  assert (Hc : (1#10) <= Qmax (1#10) (Qmin level 10)
               /\ Qmax (1#10) (Qmin level 10) <= 10) by (split; minmax).
  destruct Hc as [Hl Hu].
  destruct (Qdiv_60_bounds _ Hl Hu). tauto.
Qed.

(** The bounds every reachable state keeps. *)
Lemma perform_ranges (a : Action) (s : TimelineStore) :
  (0 <= playheadPosition s /\ (1#10) <= zoomLevel s /\ zoomLevel s <= 10 /\
   1 <= viewportDuration s) ->
  0 <= playheadPosition (perform a s) /\ (1#10) <= zoomLevel (perform a s) /\
  zoomLevel (perform a s) <= 10 /\ 1 <= viewportDuration (perform a s).
Proof.
  intros (Hp & Hl & Hu & Hv).
  pose proof (conj Hp (conj Hl (conj Hu Hv))) as Hall.
  assert (Hzoom : forall level,
             0 <= playheadPosition (setZoomLevel level s) /\
             (1#10) <= zoomLevel (setZoomLevel level s) /\
             zoomLevel (setZoomLevel level s) <= 10 /\
             1 <= viewportDuration (setZoomLevel level s)).
  { intros level. destruct (setZoomLevel_bounds level s) as (? & ? & ? & ?).
    conjs; try assumption; lra. }
  destruct a; try exact Hall; try apply Hzoom.
  - (* moveClipToTrack *)
    cbn [perform]. unfold moveClipToTrack. now destruct (findClip _ _ s).
  - (* setPlayheadPosition *)
    cbn [perform]. unfold setPlayheadPosition. cbv zeta.
    destruct (Qlt_le_dec _ _);
      (split; [apply Q.le_max_l|exact (conj Hl (conj Hu Hv))]).
  - (* updateClipStartTime *)
    cbn [perform]. unfold updateClipStartTime. now destruct (findClip _ _ s).
  - (* setViewportDuration *)
    cbn [perform]. unfold setViewportDuration.
    cbn [playheadPosition zoomLevel viewportDuration set_viewportDuration].
    conjs; try assumption. apply Q.le_max_l.
Qed.

(** X13.  In every state reachable from the initial state the playhead is
    at or after 0, the zoom level is between 0.1 and 10, and the viewport
    shows at least one second (so the divisions by [viewportDuration] in
    the timeline component never divide by zero). *)
Theorem reachable_ranges (l : list Action) :
  0 <= playheadPosition (run l initialState) /\
  (1#10) <= zoomLevel (run l initialState) /\
  zoomLevel (run l initialState) <= 10 /\
  1 <= viewportDuration (run l initialState).
Proof.
  induction l as [|a l IH] using rev_ind.
  - cbn. repeat split; lra.
  - rewrite run_snoc. now apply perform_ranges.
Qed.

Lemma playbackTick_step (s : TimelineStore) :
  0 <= playheadPosition s ->
  playheadPosition (playbackTick s) == playheadPosition s + (1#10) /\
  tracks (playbackTick s) = tracks s /\
  isPlaying (playbackTick s) = isPlaying s /\
  totalDuration s <= totalDuration (playbackTick s) /\
  playheadPosition (playbackTick s) + 30 <= totalDuration (playbackTick s).
Proof.
  intros Hp. unfold playbackTick, setPlayheadPosition. cbv zeta.
  destruct (Qlt_le_dec _ _);
    cbn [playheadPosition totalDuration tracks isPlaying set_totalDuration
         set_playheadPosition];
    conjs; try reflexivity; minmax.
Qed.

Lemma playbackTicks_succ (n : nat) (s : TimelineStore) :
  playbackTicks (S n) s = playbackTick (playbackTicks n s).
Proof.
  revert s. induction n as [|n IH]; intros s; [reflexivity|].
  change (playbackTicks (S (S n)) s) with (playbackTicks (S n) (playbackTick s)).
  now rewrite IH.
Qed.

(** X14.  Playback never runs into the end of the timeline.  From a
    playhead at or after 0, [n] ticks of the playback interval never move
    the playhead back, and the next tick moves it forward; they change
    neither the tracks nor [isPlaying]; the timeline is extended as needed,
    never shortened, and after every tick it reaches at least 30 seconds
    beyond the playhead. *)
Theorem playbackTicks_advance (n : nat) (s : TimelineStore) :
  0 <= playheadPosition s ->
  playheadPosition s <= playheadPosition (playbackTicks n s) /\
  playheadPosition (playbackTicks n s)
  < playheadPosition (playbackTicks (S n) s) /\
  tracks (playbackTicks n s) = tracks s /\
  isPlaying (playbackTicks n s) = isPlaying s /\
  totalDuration s <= totalDuration (playbackTicks n s) /\
  ((0 < n)%nat ->
   playheadPosition (playbackTicks n s) + 30 <= totalDuration (playbackTicks n s)).
Proof.
  intros Hp.
  assert (Hn : forall k,
             playheadPosition s <= playheadPosition (playbackTicks k s) /\
             tracks (playbackTicks k s) = tracks s /\
             isPlaying (playbackTicks k s) = isPlaying s /\
             totalDuration s <= totalDuration (playbackTicks k s) /\
             ((0 < k)%nat ->
              playheadPosition (playbackTicks k s) + 30
              <= totalDuration (playbackTicks k s))).
  { induction k as [|k IH].
    - cbn [playbackTicks]. conjs; try reflexivity; try lra; try lia.
    - rewrite playbackTicks_succ.
      destruct IH as (Hpos & Htr & Hpl & Htd & _).
      assert (Hp' : 0 <= playheadPosition (playbackTicks k s)) by lra.
      destruct (playbackTick_step (playbackTicks k s) Hp')
        as (Hpos' & Htr' & Hpl' & Htd' & Hroom).
      conjs; try congruence; lra. }
  destruct (Hn n) as (Hpos & Htr & Hpl & Htd & Hroom).
  split; [exact Hpos|]. split; [|now repeat split].
  rewrite playbackTicks_succ.
  assert (Hp' : 0 <= playheadPosition (playbackTicks n s)) by lra.
  destruct (playbackTick_step (playbackTicks n s) Hp') as (Hpos' & _).
  lra.
Qed.

Lemma playbackTicks_advance_witness :
  0 <= playheadPosition (playbackTicks 25 sampleState) /\
  playheadPosition (playbackTicks 25 sampleState)
  < playheadPosition (playbackTicks 26 sampleState) /\
  tracks (playbackTicks 25 sampleState) = tracks sampleState /\
  isPlaying (playbackTicks 25 sampleState) = false /\
  300 <= totalDuration (playbackTicks 25 sampleState) /\
  ((0 < 25)%nat ->
   playheadPosition (playbackTicks 25 sampleState) + 30
   <= totalDuration (playbackTicks 25 sampleState)).
Proof.
  refine (playbackTicks_advance 25 sampleState _). cbn. lra.
Defined.

(** ** Zoom *)


(** X16.  A zoom step moves the level in its direction and stops at the
    limits.  For a level between 0.1 and 10, as in every reachable state,
    [zoomIn] does not lower the level and raises it when it is below 10,
    [zoomOut] does not raise it and lowers it when it is above 0.1; at 10
    [zoomIn] keeps the level and at 0.1 [zoomOut] does; both leave the
    level between 0.1 and 10. *)
Theorem zoom_steps (s : TimelineStore) :
  (1#10) <= zoomLevel s -> zoomLevel s <= 10 ->
  zoomLevel s <= zoomLevel (zoomIn s) /\
  zoomLevel (zoomOut s) <= zoomLevel s /\
  (zoomLevel s < 10 -> zoomLevel s < zoomLevel (zoomIn s)) /\
  ((1#10) < zoomLevel s -> zoomLevel (zoomOut s) < zoomLevel s) /\
  (zoomLevel s == 10 -> zoomLevel (zoomIn s) == 10) /\
  (zoomLevel s == (1#10) -> zoomLevel (zoomOut s) == (1#10)) /\
  zoomLevel (zoomIn s) <= 10 /\ (1#10) <= zoomLevel (zoomOut s).
Proof.
  intros Hl Hu.
  unfold zoomIn, zoomOut, setZoomLevel. cbv zeta.
  cbn [zoomLevel set_scrollPosition set_viewportDuration set_zoomLevel].
  unfold Qdiv. change (/ (3#2)) with (2#3).
  conjs; minmax.
Qed.

Lemma zoom_steps_witness :
  1 <= zoomLevel (zoomIn initialState) /\
  zoomLevel (zoomOut initialState) <= 1 /\
  (1 < 10 -> 1 < zoomLevel (zoomIn initialState)) /\
  ((1#10) < 1 -> zoomLevel (zoomOut initialState) < 1) /\
  (1 == 10 -> zoomLevel (zoomIn initialState) == 10) /\
  (1 == (1#10) -> zoomLevel (zoomOut initialState) == (1#10)) /\
  zoomLevel (zoomIn initialState) <= 10 /\
  (1#10) <= zoomLevel (zoomOut initialState).
Proof.
  refine (zoom_steps initialState _ _); cbn; lra.
Defined.

(** ** Total duration, exactly *)

Lemma maxDuration_attained (ts : list TimelineTrack) :
  maxDuration ts == 0 \/
  exists t c, In t ts /\ In c (clips t) /\ maxDuration ts == clipEnd c.
Proof.
  rewrite maxDuration_reduceMax.
  destruct (reduceMax_attained (fun t => trackDuration (clips t)) ts 0)
    as [H|(t & Ht & H)]; [now left|].
  cbn beta in H. rewrite trackDuration_reduceMax in H.
  destruct (reduceMax_attained clipEnd (clips t) 0) as [H0|(c & Hc & H0)].
  - left. now rewrite H.
  - right. exists t, c. repeat split; try assumption. now rewrite H.
Qed.

(** X17.  After every action that ends with [updateTotalDuration], the
    total duration is exactly the largest of 300 and the clip ends: it is
    at least 300, at least every clip end, and equal to 300 or to the end
    of some clip of the state. *)
Theorem totalDuration_exact (a : Action) (s : TimelineStore) :
  recomputes a = true ->
  300 <= totalDuration (perform a s) /\
  (forall c, hasClip (perform a s) c ->
             startTime c + duration c <= totalDuration (perform a s)) /\
  (totalDuration (perform a s) == 300 \/
   exists c, hasClip (perform a s) c /\
             totalDuration (perform a s) == startTime c + duration c).
Proof.
  intros R. destruct (recomputes_updateTotalDuration a s R) as [s0 ->].
  split; [cbn; minmax|]. split.
  - intros c (t & Ht & Hc). now apply (updateTotalDuration_covers s0 t c).
  - cbn [totalDuration updateTotalDuration set_totalDuration].
    destruct (maxDuration_attained (tracks s0)) as [H|(t & c & Ht & Hc & H)].
    + left. minmax.
    + destruct (Q.max_spec (maxDuration (tracks s0)) 300) as [[_ E]|[_ E]].
      * now left.
      * right. exists c. split; [now exists t|].
        rewrite E, H. reflexivity.
Qed.

Lemma totalDuration_exact_witness :
  300 <= totalDuration (perform (UpdateClipStartTime "A" "A" "c1" 400) sampleState) /\
  (forall c, hasClip (perform (UpdateClipStartTime "A" "A" "c1" 400) sampleState) c ->
             startTime c + duration c
             <= totalDuration (perform (UpdateClipStartTime "A" "A" "c1" 400)
                                       sampleState)) /\
  (totalDuration (perform (UpdateClipStartTime "A" "A" "c1" 400) sampleState)
   == 300 \/
   exists c, hasClip (perform (UpdateClipStartTime "A" "A" "c1" 400) sampleState) c /\
             totalDuration (perform (UpdateClipStartTime "A" "A" "c1" 400)
                                    sampleState)
             == startTime c + duration c).
Proof.
  exact (totalDuration_exact (UpdateClipStartTime "A" "A" "c1" 400) sampleState
           eq_refl).
Defined.

(** ** Preview and drawing *)

Lemma In_allClips (s : TimelineStore) (c : TimelineClip) :
  In c (flat_map clips (tracks s)) -> hasClip s c.
Proof.
  intros H. apply in_flat_map in H. destruct H as (t & Ht & Hc). now exists t.
Qed.

(** X18.  The preview seeks inside the trimmed range: in a reachable state,
    for the clip [getActiveClip] returns, [sourceTime] is defined, it is
    [trimStart] plus the distance of the playhead from the start of the
    clip, and it lies in [[trimStart, trimEnd)]. *)
Theorem sourceTime_in_trim_range (l : list Action) (mediaItems : list MediaItem)
    (p : Q) (c : TimelineClip) (m : MediaItem) :
  getActiveClip mediaItems p (tracks (run l initialState)) = Some (c, m) ->
  exists x,
    sourceTime p (Some (c, m)) = Some x /\
    x == (trimStart c ?? 0) + (p - startTime c) /\
    (trimStart c ?? 0) <= x /\ x < (trimEnd c ?? originalDuration c).
Proof.
  intros H. rewrite getActiveClip_flat in H.
  apply activeInClips_found in H.
  destruct H as (l1 & l2 & Hflat & _ & Hin & _).
  assert (Hinv : durationInvariant c).
  { apply (run_durationInvariant l). apply In_allClips.
    rewrite Hflat. apply in_elt. }
  unfold durationInvariant in Hinv.
  exists ((trimStart c ?? 0) + (p - startTime c)).
  split.
  - unfold sourceTime. cbv zeta.
    change (andb (Qle_bool (startTime c) p)
                 (negb (Qle_bool (startTime c + duration c) p)))
      with (atPlayhead p c).
    apply atPlayhead_inInterval in Hin. now rewrite Hin.
  - destruct Hin as [H1 H2]. conjs; lra.
Qed.

Lemma sourceTime_in_trim_range_witness :
  exists x,
    sourceTime 5 (Some (trimmed sampleClip (Some 2) None,
                        mkMedia "m" media_video "blob:m" 10 "clip"))
    = Some x /\
    x == 2 + (5 - 2) /\ 2 <= x /\ x < 10.
Proof.
  exact (sourceTime_in_trim_range
           [AddTrack video "A"; AddClipToTrack "A" (clipOfDuration 10) "c1";
            TrimClip "A" "c1" (Some 2) None]
           [mkMedia "m" media_video "blob:m" 10 "clip"] 5
           (trimmed sampleClip (Some 2) None)
           (mkMedia "m" media_video "blob:m" 10 "clip") eq_refl).
Defined.

Lemma playheadLeftPercent_drawn (p scroll vd x : Q) :
  playheadLeftPercent p scroll vd = Some x ->
  scroll <= p /\ p <= scroll + vd /\ x = ((p - scroll) / vd) * 100.
Proof.
  unfold playheadLeftPercent.
  destruct (Qle_bool scroll p) eqn:E1; [|discriminate].
  destruct (Qle_bool p (scroll + vd)) eqn:E2; [|discriminate].
  cbn [andb]. intros [= <-].
  apply Qle_bool_iff in E1, E2. auto.
Qed.


(** X19.  Drawing agrees with playback: in a reachable state the length
    the clip component draws ([trimEnd - trimStart]) is the clip's
    [duration], which [getActiveClip] uses; and when the playhead is drawn
    and lies in a clip's interval, the clip is drawn too and the playhead
    line falls inside the clip's box, [left <= x < left + width]. *)
Theorem playhead_drawn_inside_clip (l : list Action) (c : TimelineClip)
    (p scroll vd x : Q) :
  hasClip (run l initialState) c ->
  playheadLeftPercent p scroll vd = Some x ->
  inInterval p c -> 0 < vd ->
  actualDuration c == duration c /\
  exists left width,
    clipGeometry c scroll vd = Some (left, width) /\
    left <= x /\ x < left + width.
Proof.
  intros Hc Hp [H1 H2] Hvd.
  apply run_durationInvariant in Hc. unfold durationInvariant in Hc.
  fold (actualDuration c) in Hc.
  apply playheadLeftPercent_drawn in Hp. destruct Hp as (Hs & He & ->).
  split; [now symmetry|].
  unfold clipGeometry. cbv zeta.
  assert (E1 : Qle_bool scroll (startTime c + actualDuration c) = true)
    by (apply Qle_bool_iff; lra).
  assert (E2 : Qle_bool (startTime c) (scroll + vd) = true)
    by (apply Qle_bool_iff; lra).
  rewrite E1, E2. cbn [negb orb]. do 2 eexists. split; [reflexivity|].
  unfold Qdiv. pose proof (Qinv_lt_0_compat vd Hvd) as Hk.
  set (k := / vd) in *. clearbody k. split; nra.
Qed.

Lemma playhead_drawn_inside_clip_witness :
  actualDuration sampleClip == 10 /\
  exists left width,
    clipGeometry sampleClip 0 60 = Some (left, width) /\
    left <= ((3 - 0) / 60) * 100 /\ ((3 - 0) / 60) * 100 < left + width.
Proof.
  refine (playhead_drawn_inside_clip
            [AddTrack video "A"; AddClipToTrack "A" (clipOfDuration 10) "c1"]
            sampleClip 3 0 60 _ _ eq_refl _ _).
  - exists sampleTrack. split; left; reflexivity.
  - split; cbn; lra.
  - lra.
Defined.



(** X21.  A playhead drag stays on the visible ruler: with a scroll
    position at or after 0, a positive [viewportDuration] and a container
    of positive width, the time computed for any pointer offset lies in
    [[scrollPosition, scrollPosition + viewportDuration]], the store takes
    it as the playhead, and the playhead is drawn. *)
Theorem playheadDrag_stays_visible (scroll vd offset width : Q)
    (s : TimelineStore) :
  0 <= scroll -> 0 < vd -> 0 < width ->
  scroll <= playheadDragTime scroll vd offset width /\
  playheadDragTime scroll vd offset width <= scroll + vd /\
  playheadPosition (playheadDragMove scroll vd (Some (offset, width)) s)
  == playheadDragTime scroll vd offset width /\
  playheadLeftPercent
    (playheadPosition (playheadDragMove scroll vd (Some (offset, width)) s))
    scroll vd <> None.
Proof.
  intros Hs Hvd Hw.
  assert (Hw' : ~ width == 0) by lra.
  pose proof (Qinv_lt_0_compat width Hw) as Hk.
  assert (Hone : width * / width == 1) by (field; auto).
  assert (Hrange : scroll <= playheadDragTime scroll vd offset width /\
                   playheadDragTime scroll vd offset width <= scroll + vd).
  { unfold playheadDragTime. cbv zeta.
    assert (Hx : 0 <= Qmax 0 (Qmin offset width)
                 /\ Qmax 0 (Qmin offset width) <= width) by (split; minmax).
    set (x := Qmax 0 (Qmin offset width)) in *. clearbody x.
    destruct Hx as [Hx0 Hx1].
    assert (Hfrac : 0 <= x / width * vd /\ x / width * vd <= vd).
    { unfold Qdiv. set (k := / width) in *. clearbody k.
      assert (Hxk : 0 <= x * k /\ x * k <= 1) by (split; nra).
      set (f := x * k) in *. clearbody f. split; nra. }
    destruct Hfrac. split; minmax. }
  destruct Hrange as [Hlo Hhi].
  assert (Hpos : playheadPosition
                   (playheadDragMove scroll vd (Some (offset, width)) s)
                 == playheadDragTime scroll vd offset width).
  { cbn [playheadDragMove]. unfold setPlayheadPosition. cbv zeta.
    destruct (Qlt_le_dec _ _);
      cbn [playheadPosition set_totalDuration set_playheadPosition]; minmax. }
  conjs; try assumption.
  intros Hnone. unfold playheadLeftPercent in Hnone.
  match goal with
  | H : (if ?b then _ else _) = None |- _ =>
      assert (E : b = true);
      [apply andb_true_iff; split; apply Qle_bool_iff; lra
      |rewrite E in H; discriminate]
  end.
Qed.

Lemma playheadDrag_stays_visible_witness :
  0 <= playheadDragTime 0 60 1000 600 /\
  playheadDragTime 0 60 1000 600 <= 0 + 60 /\
  playheadPosition (playheadDragMove 0 60 (Some (1000, 600)) sampleState)
  == playheadDragTime 0 60 1000 600 /\
  playheadLeftPercent
    (playheadPosition (playheadDragMove 0 60 (Some (1000, 600)) sampleState))
    0 60 <> None.
Proof.
  refine (playheadDrag_stays_visible 0 60 1000 600 sampleState _ _ _); lra.
Defined.


(** ** Dropping media on the timeline *)

(** X23.  Dropping a media item on the timeline.  When the registry does
    not hold the dragged id, the store is left as it is.  When it does, one
    new track is added after the existing ones, of the type that fits the
    dragged type (images go on a video track), holding the item as a single
    clip at time 0, untrimmed, whose duration is the item's duration, or 5
    seconds when that is 0; the existing tracks are not touched, provided
    the identifier drawn for the track is not the id of an existing
    track. *)
Theorem handleDropMedia_new_track (id : string) (ty : MediaType)
    (mediaItems : list MediaItem) (trackUuid clipUuid : string)
    (s : TimelineStore) :
  (find (fun item => (media_id item =? id)%string) mediaItems = None ->
   handleDropMedia id ty mediaItems trackUuid clipUuid s = s) /\
  (forall mediaItem,
      find (fun item => (media_id item =? id)%string) mediaItems
      = Some mediaItem ->
      Forall (fun t => track_id t <> trackUuid) (tracks s) ->
      exists d,
        tracks (handleDropMedia id ty mediaItems trackUuid clipUuid s)
        = tracks s
            ++ [mkTrack trackUuid (newTrackName (trackTypeOf ty)) (trackTypeOf ty)
                        [mkClip clipUuid (media_id mediaItem)
                                (media_name mediaItem)
                                d (Some 0) (Some d) d 0]] /\
        media_id mediaItem = id /\
        (media_duration mediaItem == 0 -> d = 5) /\
        (~ media_duration mediaItem == 0 -> d = media_duration mediaItem) /\
        (newTrackName (trackTypeOf ty) = "Video Track"%string \/
         newTrackName (trackTypeOf ty) = "Audio Track"%string) /\
        300 <= totalDuration
                 (handleDropMedia id ty mediaItems trackUuid clipUuid s)).
Proof.
  unfold handleDropMedia. split; [now intros ->|].
  intros mediaItem Hfind Hfresh. rewrite Hfind.
  apply find_some in Hfind. destruct Hfind as [_ Hid].
  apply String.eqb_eq in Hid. apply other_tracks in Hfresh.
  exists (orElse (media_duration mediaItem) 5).
  split; [|split; [exact Hid|split; [|split; [|split]]]].
  - unfold dropMediaItem, addTrack. cbv zeta. cbn [track_id].
    unfold addClipToTrack. cbv zeta. rewrite tracks_updateTotalDuration.
    cbn [tracks set_tracks].
    assert (Hstart :
              newClipStart trackUuid
                (set_tracks
                   (tracks s
                    ++ [mkTrack trackUuid (newTrackName (trackTypeOf ty))
                                (trackTypeOf ty) []]) s) = 0).
    { unfold newClipStart. cbv zeta. cbn [tracks set_tracks].
      rewrite (find_first _ (tracks s) []); auto.
      cbn [track_id]. apply String.eqb_refl. }
    rewrite Hstart, map_app. cbn [map track_id].
    rewrite String.eqb_refl, map_unchanged.
    + reflexivity.
    + eapply Forall_impl; [|exact Hfresh]. cbn beta. now intros t ->.
  - intros H. destruct (orElse_cases (media_duration mediaItem) 5)
      as [[_ E]|[N _]]; [exact E|contradiction].
  - intros H. destruct (orElse_cases (media_duration mediaItem) 5)
      as [[Z _]|[_ E]]; [contradiction|exact E].
  - destruct ty; cbn; auto.
  - unfold dropMediaItem, addTrack. cbv zeta. unfold addClipToTrack.
    cbv zeta. cbn [totalDuration updateTotalDuration set_totalDuration].
    apply Q.le_max_r.
Qed.

(** ** Ruler ticks *)




(** ** Reordering keeps the length of the timeline *)

Lemma reduceMax_lub {A : Type} (f : A -> Q) (l : list A) (a b : Q) :
  a <= b -> (forall x, In x l -> f x <= b) -> reduceMax f l a <= b.
Proof.
  unfold reduceMax. revert a. induction l as [|x l IH]; intros a Ha Hl.
  - exact Ha.
  - cbn [fold_left]. apply IH.
    + pose proof (Hl x (or_introl eq_refl)). minmax.
    + intros y Hy. apply Hl. now right.
Qed.

(** The largest clip end of a track only depends on which ends occur. *)
Lemma trackDuration_le (cs cs' : list TimelineClip) :
  (forall c, In c cs -> exists c', In c' cs' /\ clipEnd c <= clipEnd c') ->
  trackDuration cs <= trackDuration cs'.
Proof.
  intros H. rewrite (trackDuration_reduceMax cs). apply reduceMax_lub.
  - apply trackDuration_nonneg.
  - intros c Hc. destruct (H c Hc) as (c' & Hc' & Hle).
    pose proof (trackDuration_covers cs' c' Hc'). lra.
Qed.

Lemma maxDuration_le (ts ts' : list TimelineTrack) :
  (forall t, In t ts ->
             exists t', In t' ts' /\
                        trackDuration (clips t) <= trackDuration (clips t')) ->
  maxDuration ts <= maxDuration ts'.
Proof.
  intros H. rewrite (maxDuration_reduceMax ts). apply reduceMax_lub.
  - rewrite maxDuration_reduceMax. apply reduceMax_init.
  - intros t Ht. destruct (H t Ht) as (t' & Ht' & Hle).
    pose proof (reduceMax_elem (fun t => trackDuration (clips t)) ts' 0 t' Ht')
      as Hm.
    cbn beta in Hm. rewrite <- maxDuration_reduceMax in Hm. lra.
Qed.

(** Two track lists related index by index by a relation under which the
    largest clip end of a track is kept have the same [maxDuration]. *)
Lemma maxDuration_map (f : TimelineTrack -> TimelineTrack)
    (ts : list TimelineTrack) :
  (forall t, In t ts ->
             trackDuration (clips (f t)) == trackDuration (clips t)) ->
  maxDuration (map f ts) == maxDuration ts.
Proof.
  intros H. apply Qle_antisym; apply maxDuration_le.
  - intros t' Ht'. apply in_map_iff in Ht'. destruct Ht' as (t & <- & Ht).
    exists t. split; [exact Ht|]. rewrite (H t Ht). lra.
  - intros t Ht. exists (f t). split; [now apply in_map|].
    rewrite (H t Ht). lra.
Qed.

Lemma trackDuration_permutation (cs cs' : list TimelineClip) :
  Permutation cs cs' -> trackDuration cs == trackDuration cs'.
Proof.
  intros HP. apply Qle_antisym; apply trackDuration_le; intros c Hc;
    exists c; (split; [|lra]).
  - eapply Permutation_in; eassumption.
  - eapply Permutation_in; [symmetry|]; eassumption.
Qed.

(** X26.  [reorderClipInTrack] does not change the length of the
    timeline: the total duration after it is the one [updateTotalDuration]
    alone would set. *)
Theorem reorderClipInTrack_keeps_totalDuration (s : TimelineStore)
    (trackId clipId : string) (newIndex : Z) :
  totalDuration (reorderClipInTrack trackId clipId newIndex s)
  == totalDuration (updateTotalDuration s).
Proof.
  unfold reorderClipInTrack.
  cbn [totalDuration updateTotalDuration set_totalDuration tracks set_tracks].
  match goal with
  | |- Qmax (maxDuration (map ?f ?ts)) 300 == _ =>
      assert (Hmax : maxDuration (map f ts) == maxDuration ts)
  end.
  { apply maxDuration_map. intros t Ht. cbn beta.
    destruct (negb (track_id t =? trackId)%string); [reflexivity|].
    destruct (Z.eq_dec
                (findIndex (fun clip => (clip_id clip =? clipId)%string)
                           (clips t)) (-1)) as [Ei|Ei].
    - rewrite Ei. reflexivity.
    - apply findIndex_found in Ei.
      destruct Ei as (before & c & after & Hcs & _ & _ & Hidx).
      rewrite Hidx.
      destruct (Z.eqb_spec (Z.of_nat (length before)) (-1)) as [E1|_]; [lia|].
      rewrite Hcs, splice_at. cbn [app]. rewrite splice_insert.
      cbn [with_clips clips].
      apply trackDuration_permutation.
      etransitivity; [symmetry; apply insert_permutation|].
      apply Permutation_middle. }
  rewrite Hmax. reflexivity.
Qed.

(** ** The time display *)

Lemma Qfloor_unique (x : Q) (k : Z) :
  inject_Z k <= x -> x < inject_Z (k + 1) -> Qfloor x = k.
Proof.
  intros H1 H2.
  pose proof (Qfloor_le x) as F1. pose proof (Qlt_floor x) as F2.
  assert (A : inject_Z k < inject_Z (Qfloor x + 1)) by lra.
  assert (B : inject_Z (Qfloor x) < inject_Z (k + 1)) by lra.
  rewrite <- Zlt_Qlt in A, B. lia.
Qed.

(** X27.  The time display splits a time at or after 0 into whole minutes
    and seconds: the seconds it prints are between 0 and 59, the minutes
    are not negative, and [60 * minutes + seconds] is the time rounded
    down to a whole second. *)
Theorem formatTime_minutes_seconds (time : Q) :
  0 <= time ->
  (0 <= formatTime_minutes time)%Z /\
  (0 <= formatTime_seconds time <= 59)%Z /\
  (60 * formatTime_minutes time + formatTime_seconds time = Qfloor time)%Z.
Proof.
  intros Ht. unfold formatTime_minutes, formatTime_seconds, remainder, truncate.
  unfold Qdiv. change (/ 60) with (1#60).
  assert (E : Qle_bool 0 (time * (1#60)) = true) by (apply Qle_bool_iff; lra).
  rewrite E.
  pose proof (Qfloor_le (time * (1#60))) as M1.
  pose proof (Qlt_floor (time * (1#60))) as M2.
  set (m := Qfloor (time * (1#60))) in *. clearbody m.
  rewrite inject_Z_plus in M2. change (inject_Z 1) with 1 in M2.
  assert (Hr : exists r, r == time - 60 * inject_Z m /\
                         Qfloor (time - 60 * inject_Z m) = Qfloor r).
  { eexists. split; reflexivity. }
  destruct Hr as (r & Hr & ->).
  assert (R0 : 0 <= r) by lra.
  assert (R1 : r < 60) by lra.
  pose proof (Qfloor_le r) as S1. pose proof (Qlt_floor r) as S2.
  rewrite inject_Z_plus in S2. change (inject_Z 1) with 1 in S2.
  assert (Hm : (0 <= m)%Z).
  { assert (A : inject_Z (-1) < inject_Z m).
    { change (inject_Z (-1)) with (-1). lra. }
    rewrite <- Zlt_Qlt in A. lia. }
  assert (Hs0 : (0 <= Qfloor r)%Z).
  { change 0%Z with (Qfloor 0). now apply Qfloor_resp_le. }
  assert (Hs1 : (Qfloor r < 60)%Z).
  { rewrite Zlt_Qlt. change (inject_Z 60) with 60. lra. }
  split; [exact Hm|]. split; [lia|].
  symmetry. apply Qfloor_unique.
  - rewrite inject_Z_plus, inject_Z_mult. change (inject_Z 60) with 60. lra.
  - rewrite !inject_Z_plus, inject_Z_mult. change (inject_Z 60) with 60.
    change (inject_Z 1) with 1. lra.
Qed.

Lemma formatTime_minutes_seconds_witness :
  (0 <= formatTime_minutes (251#2))%Z /\
  (0 <= formatTime_seconds (251#2) <= 59)%Z /\
  (60 * formatTime_minutes (251#2) + formatTime_seconds (251#2) = 125)%Z.
Proof.
  refine (formatTime_minutes_seconds (251#2) _). lra.
Defined.

(** ** Identifiers stay unique *)

Lemma trackIds_map (f : TimelineTrack -> TimelineTrack) (ts : list TimelineTrack) :
  (forall t, track_id (f t) = track_id t) -> trackIds (map f ts) = trackIds ts.
Proof.
  intros H. unfold trackIds. rewrite map_map. apply map_ext. exact H.
Qed.

Lemma clipIds_app (ts1 ts2 : list TimelineTrack) :
  clipIds (ts1 ++ ts2) = clipIds ts1 ++ clipIds ts2.
Proof. unfold clipIds. now rewrite flat_map_app, map_app. Qed.

Lemma clipIds_cons (t : TimelineTrack) (ts : list TimelineTrack) :
  clipIds (t :: ts) = map clip_id (clips t) ++ clipIds ts.
Proof. unfold clipIds. cbn [flat_map]. now rewrite map_app. Qed.

Lemma clipIds_focus (tb ta : list TimelineTrack) (t : TimelineTrack) :
  Permutation (clipIds (tb ++ t :: ta))
              (map clip_id (clips t) ++ clipIds (tb ++ ta)).
Proof.
  rewrite !clipIds_app, clipIds_cons. apply Permutation_app_swap_app.
Qed.

Lemma NoDup_app_disjoint {A : Type} (l1 l2 : list A) (a : A) :
  NoDup (l1 ++ l2) -> In a l1 -> ~ In a l2.
Proof.
  intros H H1 H2. apply in_split in H1. destruct H1 as (x & y & ->).
  rewrite <- app_assoc in H. cbn [app] in H.
  apply NoDup_remove_2 in H. apply H.
  apply in_or_app. right. apply in_or_app. now right.
Qed.

Lemma NoDup_map_filter {A B : Type} (g : A -> B) (p : A -> bool) (l : list A) :
  NoDup (map g l) -> NoDup (map g (filter p l)).
Proof.
  induction l as [|x l IH]; cbn [map filter]; [auto|].
  intros H. inversion H as [|? ? Hx Hl]; subst.
  destruct (p x); [|now apply IH].
  cbn [map]. constructor; [|now apply IH].
  intros Hin. apply Hx. apply in_map_iff in Hin.
  destruct Hin as (y & Hy & Hf). apply in_map_iff. exists y.
  split; [exact Hy|]. apply filter_In in Hf. tauto.
Qed.

Lemma in_clipIds (ts : list TimelineTrack) (t : TimelineTrack) (x : string) :
  In t ts -> In x (map clip_id (clips t)) -> In x (clipIds ts).
Proof.
  intros Ht Hx. unfold clipIds. apply in_map_iff in Hx.
  destruct Hx as (c & <- & Hc). apply in_map. apply in_flat_map. now exists t.
Qed.

(** With unique track ids, a map that touches one id changes at most one
    track. *)
Lemma map_one_track (trackId : string) (f : TimelineTrack -> TimelineTrack)
    (ts : list TimelineTrack) :
  touches trackId f -> NoDup (trackIds ts) ->
  map f ts = ts \/
  exists tb t ta,
    ts = tb ++ t :: ta /\ track_id t = trackId /\ map f ts = tb ++ f t :: ta.
Proof.
  intros [Hid Hother] Hnd. induction ts as [|t ts IH]; [now left|].
  cbn [trackIds map] in Hnd. inversion Hnd as [|? ? Ht Hts]; subst.
  destruct (String.eqb_spec (track_id t) trackId) as [E|E].
  - right. exists [], t, ts. repeat split; auto. cbn [map app]. f_equal.
    apply map_unchanged. apply Forall_forall. intros t' Ht'.
    apply Hother. intros E'. apply Ht. rewrite E, <- E'.
    now apply in_map.
  - cbn [map]. rewrite (Hother t E).
    destruct (IH Hts) as [H|(tb & t0 & ta & -> & H1 & H2)].
    + left. now rewrite H.
    + right. exists (t :: tb), t0, ta. repeat split; auto.
      cbn [app]. now rewrite H2.
Qed.

(** Replacing the clips of one track keeps the clip ids unique when the new
    ids of that track are unique and each is an old id of the track or an
    id not in use. *)
Lemma unique_one_track (trackId : string) (f : TimelineTrack -> TimelineTrack)
    (ts : list TimelineTrack) :
  touches trackId f -> NoDup (trackIds ts) -> NoDup (clipIds ts) ->
  (forall t, In t ts -> track_id t = trackId ->
             NoDup (map clip_id (clips t)) ->
             NoDup (map clip_id (clips (f t))) /\
             forall x, In x (map clip_id (clips (f t))) ->
                       In x (map clip_id (clips t)) \/ ~ In x (clipIds ts)) ->
  NoDup (trackIds (map f ts)) /\ NoDup (clipIds (map f ts)).
Proof.
  intros Htouch Htr Hcl Hf. split.
  - rewrite trackIds_map; [exact Htr|apply Htouch].
  - destruct (map_one_track trackId f ts Htouch Htr)
      as [E|(tb & t & ta & -> & Hid & E)]; rewrite E; [exact Hcl|].
    pose proof (Permutation_NoDup (clipIds_focus tb ta t) Hcl) as Hfocus.
    assert (Ht : In t (tb ++ t :: ta)) by apply in_elt.
    destruct (Hf t Ht Hid (NoDup_app_remove_r _ _ Hfocus)) as [Hnew Hmem].
    eapply Permutation_NoDup; [symmetry; apply clipIds_focus|].
    apply NoDup_app.
    + exact Hnew.
    + eapply NoDup_app_remove_l. exact Hfocus.
    + intros x Hx Hrest. destruct (Hmem x Hx) as [Hold|Hfresh].
      * exact (NoDup_app_disjoint _ _ x Hfocus Hold Hrest).
      * apply Hfresh. eapply Permutation_in; [symmetry; apply clipIds_focus|].
        apply in_or_app. now right.
Qed.

Lemma NoDup_clipIds_filter (p : TimelineTrack -> bool) (ts : list TimelineTrack) :
  NoDup (clipIds ts) -> NoDup (clipIds (filter p ts)).
Proof.
  induction ts as [|t ts IH]; cbn [filter]; [auto|].
  rewrite clipIds_cons. intros H.
  pose proof (NoDup_app_remove_l _ _ H) as Hts.
  destruct (p t); [|now apply IH].
  rewrite clipIds_cons. apply NoDup_app.
  - eapply NoDup_app_remove_r. exact H.
  - now apply IH.
  - intros x Hx Hin. apply (NoDup_app_disjoint _ _ x H Hx).
    unfold clipIds in *. apply in_map_iff in Hin.
    destruct Hin as (c & <- & Hc). apply in_map.
    apply in_flat_map in Hc. destruct Hc as (t' & Ht' & Hc).
    apply in_flat_map. exists t'. apply filter_In in Ht'. tauto.
Qed.

Lemma NoDup_snoc {A : Type} (l : list A) (x : A) :
  NoDup l -> ~ In x l -> NoDup (l ++ [x]).
Proof.
  intros Hl Hx. apply NoDup_app; [exact Hl|repeat constructor; auto|].
  intros a Ha [<-|[]]. contradiction.
Qed.

Lemma focus_track (ts : list TimelineTrack) (t : TimelineTrack) :
  NoDup (trackIds ts) -> In t ts ->
  exists tb ta,
    ts = tb ++ t :: ta /\
    Forall (fun t' => track_id t' <> track_id t) tb /\
    Forall (fun t' => track_id t' <> track_id t) ta.
Proof.
  intros Hnd Hin. apply in_split in Hin. destruct Hin as (tb & ta & ->).
  exists tb, ta. split; [reflexivity|].
  unfold trackIds in Hnd. rewrite map_app in Hnd. cbn [map] in Hnd.
  apply NoDup_remove_2 in Hnd.
  split; apply Forall_forall; intros t' Ht' E; apply Hnd; rewrite <- E;
    apply in_or_app; [left|right]; now apply in_map.
Qed.

Lemma findClip_found (s : TimelineStore) (fromTrackId clipId : string)
    (c : TimelineClip) :
  findClip fromTrackId clipId s = Some c ->
  clip_id c = clipId /\
  exists t, In t (tracks s) /\ track_id t = fromTrackId /\ In c (clips t).
Proof.
  unfold findClip. destruct (find _ (tracks s)) as [t|] eqn:Ft; [|discriminate].
  intros Fc. apply find_some in Ft, Fc. destruct Ft as [Ht Hid], Fc as [Hc Hcid].
  apply String.eqb_eq in Hid, Hcid. split; [exact Hcid|]. now exists t.
Qed.

(** After the clips with an id are filtered out of the track that holds
    one of them, no clip of the state has the id. *)
Lemma removed_id_absent (ts : list TimelineTrack) (fromTrackId clipId : string)
    (t : TimelineTrack) (c : TimelineClip) :
  NoDup (trackIds ts) -> NoDup (clipIds ts) ->
  In t ts -> track_id t = fromTrackId -> In c (clips t) -> clip_id c = clipId ->
  ~ In clipId
      (clipIds
         (map (fun track =>
                 if (track_id track =? fromTrackId)%string
                 then with_clips track
                        (filter (fun clip => negb (clip_id clip =? clipId)%string)
                                (clips track))
                 else track) ts)).
Proof.
  intros Htr Hcl Ht Hid Hc Hcid.
  destruct (focus_track ts t Htr Ht) as (tb & ta & -> & Hb & Ha).
  rewrite Hid in Hb, Ha. apply other_tracks in Hb, Ha.
  rewrite map_app. cbn [map]. rewrite Hid, String.eqb_refl.
  rewrite !map_unchanged.
  2:{ eapply Forall_impl; [|exact Ha]. cbn beta. now intros x ->. }
  2:{ eapply Forall_impl; [|exact Hb]. cbn beta. now intros x ->. }
  intros Hin.
  eapply Permutation_in in Hin; [|apply clipIds_focus].
  cbn [with_clips clips] in Hin. apply in_app_or in Hin.
  destruct Hin as [Hin|Hin].
  - apply in_map_iff in Hin. destruct Hin as (c' & Hc' & Hf).
    apply filter_In in Hf. destruct Hf as [_ Hf].
    rewrite Hc', String.eqb_refl in Hf. discriminate.
  - pose proof (Permutation_NoDup (clipIds_focus tb ta t) Hcl) as Hfocus.
    apply (NoDup_app_disjoint _ _ clipId Hfocus); [|exact Hin].
    rewrite <- Hcid. now apply in_map.
Qed.

(** Solves [touches] for the track functions of the store. *)
Ltac solve_touches :=
  split;
  [ intros ?t
  | let t := fresh "t" in
    let Hne := fresh "Hne" in
    intros t Hne; apply String.eqb_neq in Hne; cbn beta; rewrite ?Hne ];
  cbn beta; cbn [negb andb];
  repeat match goal with
         | |- context [if ?b then _ else _] => destruct b eqn:?
         | |- context [match ?x with _ => _ end] => destruct x eqn:?
         end;
  try reflexivity; congruence.

Lemma removeClip_ids (t : TimelineTrack) (clipId : string)
    (ts : list TimelineTrack) :
  NoDup (map clip_id (clips t)) ->
  NoDup (map clip_id
           (filter (fun clip => negb (clip_id clip =? clipId)%string) (clips t))) /\
  forall x,
    In x (map clip_id
            (filter (fun clip => negb (clip_id clip =? clipId)%string) (clips t))) ->
    In x (map clip_id (clips t)) \/ ~ In x (clipIds ts).
Proof.
  intros H. split; [now apply NoDup_map_filter|].
  intros x Hx. left. apply in_map_iff in Hx. destruct Hx as (c & <- & Hc).
  apply filter_In in Hc. apply in_map. tauto.
Qed.

Lemma insert_ids (cs cs' : list TimelineClip) (c : TimelineClip)
    (ts : list TimelineTrack) :
  Permutation (c :: cs) cs' ->
  NoDup (map clip_id cs) -> ~ In (clip_id c) (clipIds ts) ->
  (forall x, In x (map clip_id cs) -> In x (clipIds ts)) ->
  NoDup (map clip_id cs') /\
  forall x, In x (map clip_id cs') ->
            In x (map clip_id cs) \/ ~ In x (clipIds ts).
Proof.
  intros HP Hcs Hfresh Hsub.
  pose proof (Permutation_map clip_id HP) as HPm. cbn [map] in HPm.
  split.
  - eapply Permutation_NoDup; [exact HPm|].
    constructor; [|exact Hcs]. intros Hin. apply Hfresh. now apply Hsub.
  - intros x Hx. eapply Permutation_in in Hx; [|symmetry; exact HPm].
    destruct Hx as [<-|Hx]; [now right|now left].
Qed.

Lemma addTrack_unique (ty : TrackType) (uuid : string) (s : TimelineStore) :
  uniqueIds s -> ~ In uuid (trackIds (tracks s)) ->
  uniqueIds (snd (addTrack ty uuid s)).
Proof.
  intros [Htr Hcl] Hfresh. unfold uniqueIds, addTrack. cbv zeta.
  cbn [snd tracks set_tracks]. split.
  - unfold trackIds. rewrite map_app. now apply NoDup_snoc.
  - rewrite clipIds_app. unfold clipIds at 2. cbn. now rewrite app_nil_r.
Qed.

Lemma removeTrack_unique (trackId : string) (s : TimelineStore) :
  uniqueIds s -> uniqueIds (removeTrack trackId s).
Proof.
  intros [Htr Hcl]. unfold uniqueIds, removeTrack. cbn [tracks set_tracks].
  split; [now apply NoDup_map_filter|now apply NoDup_clipIds_filter].
Qed.

Lemma addClipToTrack_unique (trackId : string) (clipData : ClipData)
    (uuid : string) (s : TimelineStore) :
  uniqueIds s -> ~ In uuid (clipIds (tracks s)) ->
  uniqueIds (addClipToTrack trackId clipData uuid s).
Proof.
  intros [Htr Hcl] Hfresh. unfold uniqueIds, addClipToTrack. cbv zeta.
  rewrite tracks_updateTotalDuration. cbn [tracks set_tracks].
  apply (unique_one_track trackId); try assumption; [solve_touches|].
  intros t Ht Hid Hnd. cbn beta. rewrite Hid, String.eqb_refl.
  cbn [with_clips clips]. rewrite map_app. cbn [map newClip clip_id]. split.
  - apply NoDup_snoc; [exact Hnd|].
    intros Hin. apply Hfresh. eapply in_clipIds; eassumption.
  - intros x Hx. apply in_app_or in Hx. destruct Hx as [Hx|[<-|[]]]; auto.
Qed.

Lemma removeClipFromTrack_unique (trackId clipId : string) (s : TimelineStore) :
  uniqueIds s -> uniqueIds (removeClipFromTrack trackId clipId s).
Proof.
  intros [Htr Hcl]. unfold uniqueIds, removeClipFromTrack.
  rewrite tracks_updateTotalDuration. cbn [tracks set_tracks].
  apply (unique_one_track trackId); try assumption; [solve_touches|].
  intros t Ht Hid Hnd. cbn beta. rewrite Hid, String.eqb_refl.
  cbn [with_clips clips]. now apply removeClip_ids.
Qed.

Lemma trimClip_unique (trackId clipId : string) (a b : option Q)
    (s : TimelineStore) :
  uniqueIds s -> uniqueIds (trimClip trackId clipId a b s).
Proof.
  intros [Htr Hcl]. unfold uniqueIds, trimClip.
  rewrite tracks_updateTotalDuration. cbn [tracks set_tracks].
  apply (unique_one_track trackId); try assumption; [solve_touches|].
  intros t Ht Hid Hnd. cbn beta. rewrite Hid, String.eqb_refl.
  cbn [negb with_clips clips].
  assert (E : map clip_id
                (map (fun clip =>
                        if negb (clip_id clip =? clipId)%string then clip
                        else trimmed clip a b) (clips t))
              = map clip_id (clips t)).
  { rewrite map_map. apply map_ext. intros c.
    now destruct (negb (clip_id c =? clipId)%string). }
  rewrite E. split; [exact Hnd|]. intros x Hx. now left.
Qed.

Lemma reorderClipInTrack_unique (trackId clipId : string) (newIndex : Z)
    (s : TimelineStore) :
  uniqueIds s -> uniqueIds (reorderClipInTrack trackId clipId newIndex s).
Proof.
  intros [Htr Hcl]. unfold uniqueIds, reorderClipInTrack.
  rewrite tracks_updateTotalDuration. cbn [tracks set_tracks].
  apply (unique_one_track trackId); try assumption; [solve_touches|].
  intros t Ht Hid Hnd. cbn beta. rewrite Hid, String.eqb_refl. cbn [negb].
  match goal with
  | |- NoDup (map clip_id (clips ?t')) /\ _ =>
      assert (HP : Permutation (clips t) (clips t'))
  end.
  { destruct (Z.eq_dec
                (findIndex (fun clip => (clip_id clip =? clipId)%string)
                           (clips t)) (-1)) as [Ei|Ei].
    - rewrite Ei. reflexivity.
    - apply findIndex_found in Ei.
      destruct Ei as (before & c & after & Hcs & _ & _ & Hidx).
      rewrite Hidx.
      destruct (Z.eqb_spec (Z.of_nat (length before)) (-1)) as [E1|_]; [lia|].
      rewrite Hcs, splice_at. cbn [app]. rewrite splice_insert.
      cbn [with_clips clips].
      etransitivity; [symmetry; apply Permutation_middle|].
      apply insert_permutation. }
  pose proof (Permutation_map clip_id HP) as HPm. split.
  - eapply Permutation_NoDup; eassumption.
  - intros x Hx. left. eapply Permutation_in; [symmetry|]; eassumption.
Qed.

Lemma splitClip_unique (trackId clipId : string) (splitTime : Q)
    (uuid1 uuid2 : string) (s : TimelineStore) :
  uniqueIds s ->
  uuid1 <> uuid2 -> ~ In uuid1 (clipIds (tracks s)) ->
  ~ In uuid2 (clipIds (tracks s)) ->
  uniqueIds (splitClip trackId clipId splitTime uuid1 uuid2 s).
Proof.
  intros [Htr Hcl] Hne H1 H2. unfold uniqueIds, splitClip.
  rewrite tracks_updateTotalDuration. cbn [tracks set_tracks].
  apply (unique_one_track trackId); try assumption; [solve_touches|].
  intros t Ht Hid Hnd. cbn beta. rewrite Hid, String.eqb_refl. cbn [negb].
  destruct (Z.eq_dec
              (findIndex (fun clip => (clip_id clip =? clipId)%string)
                         (clips t)) (-1)) as [Ei|Ei].
  { rewrite Ei. cbn [Z.eqb]. split; [exact Hnd|]. intros x Hx. now left. }
  apply findIndex_found in Ei.
  destruct Ei as (before & c & after & Hcs & _ & _ & Hidx).
  rewrite Hidx.
  destruct (Z.eqb_spec (Z.of_nat (length before)) (-1)) as [E1|_]; [lia|].
  rewrite Nat2Z.id, Hcs, nth_error_middle, splice_at.
  cbn [fst with_clips clips app].
  rewrite Hcs, map_app in Hnd. cbn [map] in Hnd.
  assert (Hsub : forall x, In x (map clip_id before ++ map clip_id after) ->
                           In x (clipIds (tracks s))).
  { intros x Hx. apply (in_clipIds _ t); [exact Ht|].
    rewrite Hcs, map_app. cbn [map]. apply in_app_or in Hx.
    apply in_or_app. destruct Hx; [now left|right; now right]. }
  rewrite !map_app. cbn [map splitFirst splitSecond clip_id]. split.
  - apply NoDup_app.
    + eapply NoDup_app_remove_r. exact Hnd.
    + apply NoDup_app_remove_l in Hnd. inversion Hnd as [|? ? _ Hafter]; subst.
      constructor; [|constructor; [|exact Hafter]].
      * intros [E|Hin]; [now apply Hne|].
        apply H1, Hsub, in_or_app. now right.
      * intros Hin. apply H2, Hsub, in_or_app. now right.
    + intros x Hx [<-|[<-|Hin]].
      * apply H1, Hsub, in_or_app. now left.
      * apply H2, Hsub, in_or_app. now left.
      * apply (NoDup_app_disjoint _ _ x Hnd Hx). now right.
  - intros x Hx. apply in_app_or in Hx.
    destruct Hx as [Hx|[<-|[<-|Hx]]]; [|now right|now right|].
    + left. apply in_or_app. now left.
    + left. apply in_or_app. right. now right.
Qed.

(** The clips a track has after the found clip is taken out of its source
    track and given, possibly changed but with the same id, to the
    destination: used for [moveClipToTrack] and [updateClipStartTime]
    between different tracks. *)
Lemma transfer_unique (ts : list TimelineTrack)
    (fromTrackId toTrackId clipId : string) (c c' : TimelineClip)
    (place : list TimelineClip -> list TimelineClip) (t0 : TimelineTrack) :
  NoDup (trackIds ts) -> NoDup (clipIds ts) ->
  In t0 ts -> track_id t0 = fromTrackId -> In c (clips t0) ->
  clip_id c = clipId -> clip_id c' = clipId ->
  fromTrackId <> toTrackId ->
  (forall cs, Permutation (c' :: cs) (place cs)) ->
  NoDup (trackIds
           (map (fun track =>
                   if (track_id track =? fromTrackId)%string then
                     with_clips track
                       (filter (fun clip => negb (clip_id clip =? clipId)%string)
                               (clips track))
                   else if (track_id track =? toTrackId)%string then
                     with_clips track (place (clips track))
                   else track) ts)) /\
  NoDup (clipIds
           (map (fun track =>
                   if (track_id track =? fromTrackId)%string then
                     with_clips track
                       (filter (fun clip => negb (clip_id clip =? clipId)%string)
                               (clips track))
                   else if (track_id track =? toTrackId)%string then
                     with_clips track (place (clips track))
                   else track) ts)).
Proof.
  intros Htr Hcl Ht0 Hid0 Hc Hcid Hcid' Hne Hplace.
  set (h := fun track =>
              if (track_id track =? fromTrackId)%string
              then with_clips track
                     (filter (fun clip => negb (clip_id clip =? clipId)%string)
                             (clips track))
              else track).
  set (g := fun track =>
              if (track_id track =? toTrackId)%string
              then with_clips track (place (clips track))
              else track).
  assert (Hcomp : forall l,
             map (fun track =>
                    if (track_id track =? fromTrackId)%string then
                      with_clips track
                        (filter (fun clip => negb (clip_id clip =? clipId)%string)
                                (clips track))
                    else if (track_id track =? toTrackId)%string then
                      with_clips track (place (clips track))
                    else track) l
             = map g (map h l)).
  { intros l. rewrite map_map. apply map_ext. intros t. unfold g, h.
    destruct (String.eqb_spec (track_id t) fromTrackId) as [E|E];
      [|reflexivity].
    cbn [with_clips track_id].
    destruct (String.eqb_spec (track_id t) toTrackId) as [E'|_];
      [congruence|reflexivity]. }
  rewrite Hcomp.
  assert (Hh : NoDup (trackIds (map h ts)) /\ NoDup (clipIds (map h ts))).
  { apply (unique_one_track fromTrackId); try assumption;
      [unfold h; solve_touches|].
    intros t Ht Hid Hnd. unfold h. rewrite Hid, String.eqb_refl.
    cbn [with_clips clips]. now apply removeClip_ids. }
  destruct Hh as [Htr' Hcl'].
  assert (Habs : ~ In clipId (clipIds (map h ts))).
  { unfold h. eapply removed_id_absent; eassumption. }
  apply (unique_one_track toTrackId); try assumption;
    [unfold g; solve_touches|].
  intros t Ht Hid Hnd. unfold g. rewrite Hid, String.eqb_refl.
  cbn [with_clips clips].
  apply (insert_ids (clips t) (place (clips t)) c'); auto.
  - now rewrite Hcid'.
  - intros x Hx. eapply in_clipIds; eassumption.
Qed.

Lemma moveClipToTrack_unique (fromTrackId toTrackId clipId : string)
    (insertIndex : option Z) (s : TimelineStore) :
  uniqueIds s ->
  uniqueIds (moveClipToTrack fromTrackId toTrackId clipId insertIndex s).
Proof.
  intros [Htr Hcl]. unfold uniqueIds, moveClipToTrack.
  rewrite tracks_updateTotalDuration.
  destruct (findClip fromTrackId clipId s) as [c|] eqn:Hfind; [|now split].
  cbn [tracks set_tracks].
  destruct (findClip_found s fromTrackId clipId c Hfind)
    as (Hcid & t0 & Ht0 & Hid0 & Hc).
  destruct (String.eqb_spec fromTrackId toTrackId) as [<-|Hne].
  - apply (unique_one_track fromTrackId); try assumption; [solve_touches|].
    intros t Ht Hid Hnd. cbn beta. rewrite Hid, String.eqb_refl.
    cbn [with_clips clips]. now apply removeClip_ids.
  - apply (transfer_unique (tracks s) fromTrackId toTrackId clipId c c
             (fun cs =>
                fst (splice cs
                            match insertIndex with
                            | Some i => i
                            | None => Z.of_nat (length cs)
                            end 0 [c])) t0); auto.
    intros cs. rewrite splice_insert. apply insert_permutation.
Qed.

Lemma updateClipStartTime_unique (fromTrackId toTrackId clipId : string)
    (newStartTime : Q) (s : TimelineStore) :
  uniqueIds s ->
  uniqueIds (updateClipStartTime fromTrackId toTrackId clipId newStartTime s).
Proof.
  intros [Htr Hcl]. unfold uniqueIds, updateClipStartTime.
  rewrite tracks_updateTotalDuration.
  destruct (findClip fromTrackId clipId s) as [c|] eqn:Hfind; [|now split].
  cbv zeta. cbn [tracks set_tracks].
  destruct (findClip_found s fromTrackId clipId c Hfind)
    as (Hcid & t0 & Ht0 & Hid0 & Hc).
  destruct (String.eqb_spec fromTrackId toTrackId) as [<-|Hne].
  - apply (unique_one_track fromTrackId); try assumption; [solve_touches|].
    intros t Ht Hid Hnd. cbn beta. rewrite Hid, String.eqb_refl.
    cbn [andb with_clips clips].
    assert (E : map clip_id
                  (map (fun clip =>
                          if (clip_id clip =? clipId)%string
                          then updatedClip c newStartTime else clip) (clips t))
                = map clip_id (clips t)).
    { rewrite map_map. apply map_ext. intros x.
      destruct (String.eqb_spec (clip_id x) clipId) as [E|_]; [|reflexivity].
      cbn [updatedClip clip_id]. congruence. }
    rewrite E. split; [exact Hnd|]. intros x Hx. now left.
  - assert (Hmap :
              map (fun track =>
                     if andb (track_id track =? fromTrackId)%string false then
                       with_clips track
                         (map (fun clip =>
                                 if (clip_id clip =? clipId)%string
                                 then updatedClip c newStartTime else clip)
                              (clips track))
                     else if (track_id track =? fromTrackId)%string then
                       with_clips track
                         (filter (fun clip => negb (clip_id clip =? clipId)%string)
                                 (clips track))
                     else if (track_id track =? toTrackId)%string then
                       with_clips track (clips track ++ [updatedClip c newStartTime])
                     else track) (tracks s)
              = map (fun track =>
                       if (track_id track =? fromTrackId)%string then
                         with_clips track
                           (filter (fun clip =>
                                      negb (clip_id clip =? clipId)%string)
                                   (clips track))
                       else if (track_id track =? toTrackId)%string then
                         with_clips track
                           ((fun cs => cs ++ [updatedClip c newStartTime])
                              (clips track))
                       else track) (tracks s)).
    { apply map_ext. intros t. now rewrite andb_false_r. }
    rewrite Hmap.
    apply (transfer_unique (tracks s) fromTrackId toTrackId clipId c
             (updatedClip c newStartTime)
             (fun cs => cs ++ [updatedClip c newStartTime]) t0); auto.
    intros cs. apply Permutation_cons_append.
Qed.

Lemma tracks_unchanged (a : Action) (s : TimelineStore) :
  match a with
  | SetPlayheadPosition _ | SetIsPlaying _ | UpdateTotalDuration
  | SetZoomLevel _ | SetScrollPosition _ | SetViewportDuration _
  | ZoomIn | ZoomOut | ResetZoom => tracks (perform a s) = tracks s
  | _ => True
  end.
Proof.
  destruct a; try exact I; try reflexivity.
  cbn [perform]. unfold setPlayheadPosition. now destruct (Qlt_le_dec _ _).
Qed.

Lemma perform_uniqueIds (a : Action) (s : TimelineStore) :
  uniqueIds s -> freshIds a s -> uniqueIds (perform a s).
Proof.
  intros Hs Hfresh. pose proof (tracks_unchanged a s) as Hsame.
  destruct a; cbn [perform freshIds] in *;
    try (unfold uniqueIds; rewrite Hsame; exact Hs).
  - now apply addTrack_unique.
  - now apply removeTrack_unique.
  - now apply addClipToTrack_unique.
  - now apply removeClipFromTrack_unique.
  - now apply moveClipToTrack_unique.
  - now apply reorderClipInTrack_unique.
  - now apply trimClip_unique.
  - destruct Hfresh as (? & ? & ?). now apply splitClip_unique.
  - now apply updateClipStartTime_unique.
Qed.

(** X28.  Ids stay unique.  If no two tracks and no two clips of a state
    share an id, and the identifiers an action draws are new (for
    [addTrack] not a track id in use, for [addClipToTrack] and [splitClip]
    not clip ids in use, and the two of [splitClip] different), the same
    holds after the action; so it holds in every state reached from the
    initial state by such actions, where every lookup by id then finds at
    most one track or clip. *)
Theorem uniqueIds_kept :
  (forall a s, uniqueIds s -> freshIds a s -> uniqueIds (perform a s)) /\
  (forall l, freshRun l initialState -> uniqueIds (run l initialState)).
Proof.
  split; [exact perform_uniqueIds|].
  assert (H : forall l s, uniqueIds s -> freshRun l s -> uniqueIds (run l s)).
  { induction l as [|a l IH]; intros s Hs Hl; [exact Hs|].
    destruct Hl as [Ha Hl]. cbn [run fold_left].
    apply (IH (perform a s)); [now apply perform_uniqueIds|exact Hl]. }
  intros l. apply H. split; constructor.
Qed.
